(** * The MindSpore remote debugger session (ccsrc/debug/debugger/debugger.cc)

    A shallow embedding of [mindspore::Debugger] and of the free functions of
    debugger.cc, together with the properties of the session that the
    specification states about them.

    Conventions of the embedding.
    - C++ integers are [Z]; conversions between widths are written out
      ([to_uint64], [to_int32], ...).  Signed overflow is undefined in C++:
      where the code can reach it the model answers [None] / [Undefined].
    - [std::string] is [string]; raw memory is a list of bytes, each a [Z] in
      [0, 255].
    - A [double] time stamp is a finite rational, an infinity or NaN; the
      code only parses, copies and compares time stamps.  [std::stod] throws
      on a string that it cannot convert (the model answers [None]), and an
      exception that leaves a member function is an outcome of its own.
    - The singleton [Debugger] object is a record that is threaded through
      the member functions; what the process does to the outside world
      (gRPC calls, sleeping, exiting) is recorded in a chronological trace. *)

From Stdlib Require Import ZArith List String Ascii Bool Lia QArith DecimalString.
From stdpp Require Import base option gmap strings.
Import ListNotations.

Open Scope string_scope.
Open Scope Z_scope.

(** ** Machine integers *)

Definition UINT64_MOD : Z := 2 ^ 64.
Definition UINT32_MOD : Z := 2 ^ 32.
Definition INT_MAX : Z := 2 ^ 31 - 1.

(** Conversion to [uint64_t] / [size_t] / [uint32_t]: reduction modulo 2^w. *)
Definition to_uint64 (x : Z) : Z := x mod UINT64_MOD.
Definition to_uint32 (x : Z) : Z := x mod UINT32_MOD.

(** Conversion of an [unsigned int] to [int]: the two's complement reading of
    the same 32 bits. *)
Definition to_int32 (x : Z) : Z :=
  let u := x mod UINT32_MOD in
  if u <=? INT_MAX then u else u - UINT32_MOD.

(** ** double *)

(** An IEEE 754 [double] as far as the code looks at it: a finite value is
    the rational that it denotes (the two zeros compare equal and are one
    value here), and there are the two infinities and NaN. *)
Inductive double :=
| Finite (q : Q)
| PosInf
| NegInf
| NaN.

Definition is_nan (x : double) : bool :=
  match x with
  | NaN => true
  | _ => false
  end.

(** [a <= b] on [double]: false when [a] or [b] is NaN. *)
Definition double_le (a b : double) : bool :=
  match a, b with
  | NaN, _ => false
  | _, NaN => false
  | NegInf, _ => true
  | _, PosInf => true
  | Finite x, Finite y => Qle_bool x y
  | PosInf, _ => false
  | Finite _, NegInf => false
  end.

(** [a > b] on [double]: false when [a] or [b] is NaN. *)
Definition double_gt (a b : double) : bool :=
  match a, b with
  | NaN, _ => false
  | _, NaN => false
  | _, _ => negb (double_le a b)
  end.

(** ** std::string *)

(** [std::string::npos], the largest [size_t]. *)
Definition npos : Z := UINT64_MOD - 1.

Fixpoint char_in (c : ascii) (chars : string) : bool :=
  match chars with
  | EmptyString => false
  | String a rest => Ascii.eqb c a || char_in c rest
  end.

(** Scan from the left, remembering the last index whose character belongs to
    [chars]; [found] is the answer so far and [i] the index of the head. *)
Fixpoint find_last_of_from (s chars : string) (i found : Z) : Z :=
  match s with
  | EmptyString => found
  | String a rest =>
      find_last_of_from rest chars (i + 1) (if char_in a chars then i else found)
  end.

(** [s.find_last_of(chars)]: the index of the last character of [s] that
    occurs in [chars], or [npos]. *)
Definition find_last_of (s chars : string) : Z :=
  find_last_of_from s chars 0 npos.

Fixpoint drop_chars (n : nat) (s : string) : string :=
  match n, s with
  | O, _ => s
  | S _, EmptyString => EmptyString
  | S n', String _ rest => drop_chars n' rest
  end.

(** [s.substr(pos)], the characters of [s] from index [pos] on.  The C++
    function throws when [pos > s.size()]; [find_last_of_next_le] below shows
    that the positions the debugger computes never are. *)
Definition substr (s : string) (pos : Z) : string := drop_chars (Z.to_nat pos) s.

(** ** Protocol messages (debug_graph.proto / debug_grpc.proto) *)

(** A byte of raw memory, as a number in [0, 255]. *)
Definition byte := Z.

Record TensorProto := mkTensorProto {
  node_name : string;
  slot : string;
  iter : string;
  truncate : bool;
  finished : bool;
  tensor_content : list byte;
  data_type : Z;
  dims : list Z
}.

(** A default-constructed protobuf message. *)
Definition TensorProto_default : TensorProto :=
  mkTensorProto "" "" "" false false [] 0 [].

Definition set_finished (b : bool) (t : TensorProto) : TensorProto :=
  mkTensorProto (node_name t) (slot t) (iter t) (truncate t) b
                (tensor_content t) (data_type t) (dims t).

Definition set_tensor_content (c : list byte) (t : TensorProto) : TensorProto :=
  mkTensorProto (node_name t) (slot t) (iter t) (truncate t) (finished t)
                c (data_type t) (dims t).

Definition set_data_type (ty : Z) (t : TensorProto) : TensorProto :=
  mkTensorProto (node_name t) (slot t) (iter t) (truncate t) (finished t)
                (tensor_content t) ty (dims t).

Definition add_dims (e : Z) (t : TensorProto) : TensorProto :=
  mkTensorProto (node_name t) (slot t) (iter t) (truncate t) (finished t)
                (tensor_content t) (data_type t) (dims t ++ [e])%list.

(** ** GetTensorFullName *)

Definition GetTensorFullName (tensor : TensorProto) : string :=
  let name := node_name tensor in
  let name :=
    if truncate tensor then
      (* scopes in node name are separated by '/' *)
      let found := find_last_of name "/" in
      substr name (to_uint64 (found + 1))
    else name in
  name +:+ ":" +:+ slot tensor +:+
    (if String.eqb (iter tensor) "" then "" else ":" +:+ iter tensor).

(** ** AddTensorProtoInfo *)

Definition AddTensorProtoInfo (tensor_item tensor : TensorProto) : TensorProto :=
  mkTensorProto (node_name tensor) (slot tensor) (iter tensor) (truncate tensor)
                (finished tensor_item) [] 0 [].

(** ** CheckPort *)

(** The numeric value of a [char] that holds a 7-bit character.  (Characters
    above 127 are negative when [char] is signed and larger than any digit
    when it is not; [CheckPort] rejects them in both cases.) *)
Definition char_code (c : ascii) : Z := Z.of_N (N_of_ascii c).

Fixpoint CheckPort_loop (p : string) (num : Z) : bool :=
  match p with
  | EmptyString => true
  | String c rest =>
      if (char_code c <? 48) || (57 <? char_code c) then false
      else
        let num := num * 10 + char_code c - 48 in
        if (num <? 1) || (65535 <? num) then false
        else CheckPort_loop rest num
  end.

Definition CheckPort (port : string) : bool :=
  match port with
  | String "0" (String _ _) => false
  | _ => CheckPort_loop port 0
  end.

(** ** The regular expression for MS_DEBUGGER_HOST *)

(** The fragment of ECMAScript regular expressions that [reg_ip] uses. *)
Inductive regex :=
| Chr (c : ascii)
| Range (lo hi : ascii)
| Seq (r1 r2 : regex)
| Alt (r1 r2 : regex).

(** Backtracking matcher: [rmatch r s k] holds when a prefix of [s] matches
    [r] and the continuation [k] accepts the rest. *)
Fixpoint rmatch (r : regex) (s : string) (k : string -> bool) : bool :=
  match r with
  | Chr c =>
      match s with
      | String a rest => Ascii.eqb a c && k rest
      | EmptyString => false
      end
  | Range lo hi =>
      match s with
      | String a rest =>
          (char_code lo <=? char_code a) && (char_code a <=? char_code hi) && k rest
      | EmptyString => false
      end
  | Seq r1 r2 => rmatch r1 s (fun rest => rmatch r2 rest k)
  | Alt r1 r2 => rmatch r1 s k || rmatch r2 s k
  end.

(** [std::regex_match]: the whole string has to match. *)
Definition regex_match (s : string) (r : regex) : bool :=
  rmatch r s (fun rest => match rest with EmptyString => true | _ => false end).

Definition digit_0_9 : regex := Range "0" "9".
Definition digit_1_9 : regex := Range "1" "9".

(** [(25[0-4]|2[0-4][0-9]|1[0-9][0-9]|[1-9][0-9]|[1-9])] *)
Definition reg_octet_outer : regex :=
  Alt (Seq (Chr "2") (Seq (Chr "5") (Range "0" "4")))
 (Alt (Seq (Chr "2") (Seq (Range "0" "4") digit_0_9))
 (Alt (Seq (Chr "1") (Seq digit_0_9 digit_0_9))
 (Alt (Seq digit_1_9 digit_0_9)
      digit_1_9))).

(** [(25[0-5]|2[0-4][0-9]|1[0-9][0-9]|[1-9][0-9]|[0-9])] *)
Definition reg_octet_inner : regex :=
  Alt (Seq (Chr "2") (Seq (Chr "5") (Range "0" "5")))
 (Alt (Seq (Chr "2") (Seq (Range "0" "4") digit_0_9))
 (Alt (Seq (Chr "1") (Seq digit_0_9 digit_0_9))
 (Alt (Seq digit_1_9 digit_0_9)
      digit_0_9))).

Definition reg_ip : regex :=
  Seq reg_octet_outer (Seq (Chr ".")
 (Seq reg_octet_inner (Seq (Chr ".")
 (Seq reg_octet_inner (Seq (Chr ".")
      reg_octet_outer))))).

(** ** Kernel graphs *)

Record CNode := mkCNode {
  cnode_name : string;            (* AnfAlgo::GetCNodeName(node) *)
  fullname_with_scope : string
}.

(** A kernel graph, with the address of the object: [KernelGraphPtr]s are
    compared as pointers. *)
Record KernelGraph := mkKernelGraph {
  graph_address : Z;
  graph_id : Z;
  inputs : list string;
  execution_order : list CNode
}.

(** [graph_ptr_ != graph_ptr], for a non-null [graph_ptr]. *)
Definition graph_ptr_differs (bound : option KernelGraph) (g : KernelGraph) : bool :=
  match bound with
  | Some g0 => negb (graph_address g0 =? graph_address g)
  | None => true
  end.

(** The topology message of a graph ([GetDebuggerFuncGraphProto] is defined
    outside debugger.cc; the message is kept symbolic). *)
Inductive GraphProto := GraphProtoOf (g : KernelGraph).

(** ** Watch store and tensor snapshot cache (DebugServices) *)

Record watchpoint_t := mkWatchpoint {
  wp_id : Z;
  wp_condition : Z;
  wp_parameter : Q;
  wp_check_node_list : list (string * bool)
}.

(** A captured tensor: the node it belongs to, its full name
    [node:slot[:iteration]], its bytes, element type and shape. *)
Record TensorData := mkTensorData {
  td_node : string;
  td_name : string;
  td_data : list byte;
  td_dtype : Z;
  td_shape : list Z
}.

Record DebugServices := mkDebugServices {
  watchpoint_table : gmap Z watchpoint_t;
  tensor_loader : list TensorData
}.

(** [std::make_unique<DebugServices>()] *)
Definition DebugServices_new : DebugServices := mkDebugServices ∅ [].

(** Modelled from the spec: [DebugServices::AddWatchpoint] is not part of
    debugger.cc; "Add(id, condition, threshold, targets) registers or replaces
    the watchpoint at id". *)
Definition AddWatchpoint (id condition : Z) (parameter : Q)
    (check_node_list : list (string * bool)) (ds : DebugServices) : DebugServices :=
  mkDebugServices
    (<[id := mkWatchpoint id condition parameter check_node_list]> (watchpoint_table ds))
    (tensor_loader ds).

(** Modelled from the spec: [DebugServices::RemoveWatchpoint] is not part of
    debugger.cc; "Remove(id) deletes if present; no error if absent". *)
Definition DS_RemoveWatchpoint (id : Z) (ds : DebugServices) : DebugServices :=
  mkDebugServices (delete id (watchpoint_table ds)) (tensor_loader ds).



(** What [ReadNodesTensors] hands back for one tensor it found; the C++ code
    keeps the five components in five vectors filled side by side. *)
Record NodeTensor := mkNodeTensor {
  ret_name : string;
  data_ptr : list byte;
  data_size : Z;          (* unsigned int *)
  dtype : Z;
  shape : list Z
}.

Definition SearchTensor (ds : DebugServices) (name : string) : option TensorData :=
  List.find (fun td => String.eqb (td_name td) name) (tensor_loader ds).

Definition NodeTensor_of (td : TensorData) : NodeTensor :=
  mkNodeTensor (td_name td) (td_data td)
               (to_uint32 (Z.of_nat (length (td_data td))))
               (td_dtype td) (td_shape td).

(** Modelled from the spec: [DebugServices::ReadNodesTensors] is not part of
    debugger.cc; "Lookup(name_list) -> matched_subset_in_request_order", and
    in the words of its caller "ret_name will contain tensor names that are
    found in TensorLoader; items in ret_name will be in the same order with
    tensors if found". *)
Fixpoint ReadNodesTensors (ds : DebugServices) (name : list string) : list NodeTensor :=
  match name with
  | [] => []
  | n :: rest =>
      match SearchTensor ds n with
      | Some td => NodeTensor_of td :: ReadNodesTensors ds rest
      | None => ReadNodesTensors ds rest
      end
  end.

(** ** The host process and its platform *)

Record dirent := mkDirent {
  d_is_reg : bool;      (* d_type == DT_REG *)
  d_name : string
}.

(** One result of watchpoint evaluation: the four output vectors of
    [DebugServices::CheckWatchpoints], read at one index. *)
Record HitRecord := mkHitRecord {
  hit_name : string;
  hit_slot : string;
  hit_condition : Z;
  hit_watchpoint_id : Z
}.

(** What the debugger reads from its surroundings: the C++ implementation
    (signedness of plain [char]), the build (ENABLE_D, the device build),
    the environment variables, the file system with the overflow records,
    and the functions of MindSpore that debugger.cc calls without defining. *)
Class Host := {
  char_signed : bool;
  ENABLE_D : bool;
  getenv : string -> option string;
  DumpDataEnabled : Z -> bool;
  opendir : string -> option (list dirent);
  open_file : string -> option (list byte);
  (* std::stod; [None]: it throws std::invalid_argument (the string does not
     start with a number) or std::out_of_range *)
  stod : string -> option double;
  GetOpOverflowBinPath : Z -> Z -> string;
  GetDebuggerNumberDataType : Z -> Z;
  DS_CheckWatchpoints :
    gmap Z watchpoint_t -> list string -> list TensorData -> list HitRecord
}.

(** [kGPUDevice], declared in utils/ms_context.h. *)
Definition kGPUDevice : string := "GPU".

(** ** BytestoInt64 *)

(** [(uint64_t)c] for a plain [char] holding the byte [b]: a signed [char]
    is sign-extended. *)
Definition char_to_uint64 `{Host} (b : byte) : Z :=
  to_uint64 (if char_signed && (128 <=? b) then b - 256 else b).

Definition shl64 (x n : Z) : Z := to_uint64 (Z.shiftl x n).

Definition BytestoInt64 `{Host} (buffer : list byte) : Z :=
  let at_ i := char_to_uint64 (nth i buffer 0) in
  Z.lor (Z.lor (Z.lor (Z.lor (Z.lor (Z.lor (Z.lor
    (shl64 (at_ 7%nat) 56) (shl64 (at_ 6%nat) 48)) (shl64 (at_ 5%nat) 40))
    (shl64 (at_ 4%nat) 32)) (shl64 (at_ 3%nat) 24)) (shl64 (at_ 2%nat) 16))
    (shl64 (at_ 1%nat) 8)) (at_ 0%nat).

(** ** LoadTensors *)

Definition CHUNK_SIZE : Z := 1024 * 1024 * 3.

(** The placeholder for a tensor that was not found. *)
Definition empty_tensor_item (tensor : TensorProto) : TensorProto :=
  AddTensorProtoInfo (set_finished true TensorProto_default) tensor.

(** One pass through the body of [while (size_iter < tensor_size)]: the chunk
    that starts at offset [size_iter]. *)
Definition tensor_chunk `{Host} (tensor : TensorProto) (r : NodeTensor)
    (tensor_size size_iter : Z) : TensorProto :=
  let last := tensor_size - size_iter <=? CHUNK_SIZE in
  let chunk_size := if last then tensor_size - size_iter else CHUNK_SIZE in
  let tensor_item := set_finished false TensorProto_default in
  let tensor_item := if last then set_finished true tensor_item else tensor_item in
  let tensor_item := AddTensorProtoInfo tensor_item tensor in
  let tensor_item :=
    set_tensor_content
      (take (Z.to_nat chunk_size) (drop (Z.to_nat size_iter) (data_ptr r)))
      tensor_item in
  let tensor_item := set_data_type (GetDebuggerNumberDataType (dtype r)) tensor_item in
  fold_left (fun item elem => add_dims elem item) (shape r) tensor_item.

(** The [while] loop.  [size_iter += CHUNK_SIZE] is an [int] addition: past
    [INT_MAX] the behaviour is undefined ([None]).  [fuel] bounds the number
    of passes; [LoadTensors_chunks] supplies enough. *)
Fixpoint LoadTensors_while `{Host} (fuel : nat) (tensor : TensorProto)
    (r : NodeTensor) (tensor_size size_iter : Z) : option (list TensorProto) :=
  if size_iter <? tensor_size then
    match fuel with
    | O => None
    | S fuel' =>
        let tensor_item := tensor_chunk tensor r tensor_size size_iter in
        if INT_MAX <? size_iter + CHUNK_SIZE then None
        else
          rest ← LoadTensors_while fuel' tensor r tensor_size (size_iter + CHUNK_SIZE);
          Some (tensor_item :: rest)
    end
  else Some [].

Definition LoadTensors_chunks `{Host} (tensor : TensorProto) (r : NodeTensor)
    : option (list TensorProto) :=
  let tensor_size := to_int32 (data_size r) in
  LoadTensors_while (Z.to_nat (tensor_size / CHUNK_SIZE + 1)) tensor r tensor_size 0.

(** The [for (auto tensor : tensors)] loop; [result_index] walks [ret]. *)
Fixpoint LoadTensors_for `{Host} (ret : list NodeTensor) (tensors : list TensorProto)
    (result_index : nat) : option (list TensorProto) :=
  match tensors with
  | [] => Some []
  | tensor :: rest =>
      let not_found :=
        match ret !! result_index with
        | None => true
        | Some r => negb (String.eqb (ret_name r) (GetTensorFullName tensor))
        end in
      if not_found then
        more ← LoadTensors_for ret rest result_index;
        Some (empty_tensor_item tensor :: more)
      else
        match ret !! result_index with
        | None => None
        | Some r =>
            chunks ← LoadTensors_chunks tensor r;
            more ← LoadTensors_for ret rest (S result_index);
            Some (chunks ++ more)%list
        end
  end.

Definition LoadTensors `{Host} (debug_services_ : option DebugServices)
    (tensors : list TensorProto) : option (list TensorProto) :=
  ds ← debug_services_;
  let name := map GetTensorFullName tensors in
  let ret := ReadNodesTensors ds name in
  LoadTensors_for ret tensors 0.

(** ** Commands and replies of the controller *)

Record WatchNode := mkWatchNode {
  wn_node_name : string;
  wn_node_type : string
}.

Record WatchCondition := mkWatchCondition {
  wc_condition : Z;
  wc_value : Q
}.

Definition WatchCondition_default : WatchCondition := mkWatchCondition 0 0.

Record WatchpointHit := mkWatchpointHit {
  wh_id : Z;
  wh_tensor : TensorProto;
  wh_watch_condition : WatchCondition
}.

(** The [cmd] oneof of an [EventReply]. *)
Inductive Cmd :=
| CMD_NOT_SET
| Exit_cmd
| RunCmd (run_level node_name : string)
| SetCmd (watch_nodes : list WatchNode) (watch_condition : option WatchCondition)
         (id : Z) (delete_ : bool)
| ViewCmd (tensors : list TensorProto).

Record EventReply := mkEventReply {
  status_OK : bool;          (* reply.status() == reply.OK *)
  cmd : Cmd
}.

Inductive DebuggerCommand := kExitCMD | kRunCMD | kSetCMD | kViewCMD | kUnknownCMD.

Definition GetCommand (reply : EventReply) : DebuggerCommand :=
  match cmd reply with
  | Exit_cmd => kExitCMD
  | RunCmd _ _ => kRunCMD
  | SetCmd _ _ _ _ => kSetCMD
  | ViewCmd _ => kViewCMD
  | CMD_NOT_SET => kUnknownCMD
  end.

Definition GetWatchnodes (reply : EventReply) : list WatchNode :=
  match cmd reply with SetCmd nodes _ _ _ => nodes | _ => [] end.

Definition GetRunLevel (reply : EventReply) : string :=
  match cmd reply with RunCmd level _ => level | _ => "" end.

Definition GetNodeName (reply : EventReply) : string :=
  match cmd reply with RunCmd _ name => name | _ => "" end.

Definition GetWatchcondition (reply : EventReply) : WatchCondition :=
  match cmd reply with
  | SetCmd _ (Some condition) _ _ => condition
  | _ => WatchCondition_default
  end.

Definition GetWatchpointID (reply : EventReply) : Z :=
  match cmd reply with SetCmd _ _ id _ => id | _ => 0 end.

Definition GetWatchpointDelete (reply : EventReply) : bool :=
  match cmd reply with SetCmd _ _ _ del => del | _ => false end.

Definition GetTensors (reply : EventReply) : list TensorProto :=
  match cmd reply with ViewCmd tensors => tensors | _ => [] end.

Record Metadata := mkMetadata {
  md_device_name : string;
  md_cur_step : Z;
  md_backend : string;
  md_cur_node : string;
  md_training_done : bool
}.

(** ** The Debugger object *)

Record GrpcClient := mkGrpcClient {
  grpc_host : string;
  grpc_port : string
}.

Record Debugger := mkDebugger {
  grpc_client_ : option GrpcClient;
  debug_services_ : option DebugServices;
  graph_ptr_ : option KernelGraph;
  device_id_ : Z;
  device_target_ : string;
  num_step_ : Z;
  debugger_enabled_ : bool;
  run_level_ : string;
  node_name_ : string;
  cur_name_ : string;
  training_done_ : bool;
  is_dataset_graph_ : bool;
  partial_memory_ : bool;
  last_overflow_bin_ : double;
  overflow_bin_path_ : string;
  stream_task_to_opname_ : gmap (Z * Z) string
}.

(** [Debugger::Debugger()] *)
Definition Debugger_new : Debugger :=
  mkDebugger None None None 0 "" 0 false "" "" "" false false false (Finite 0) "" ∅.

(** Assignments to single members. *)
Definition set_grpc_client_ (v : option GrpcClient) (d : Debugger) : Debugger :=
  mkDebugger v (debug_services_ d) (graph_ptr_ d) (device_id_ d) (device_target_ d)
    (num_step_ d) (debugger_enabled_ d) (run_level_ d) (node_name_ d) (cur_name_ d)
    (training_done_ d) (is_dataset_graph_ d) (partial_memory_ d)
    (last_overflow_bin_ d) (overflow_bin_path_ d) (stream_task_to_opname_ d).

Definition set_debug_services_ (v : option DebugServices) (d : Debugger) : Debugger :=
  mkDebugger (grpc_client_ d) v (graph_ptr_ d) (device_id_ d) (device_target_ d)
    (num_step_ d) (debugger_enabled_ d) (run_level_ d) (node_name_ d) (cur_name_ d)
    (training_done_ d) (is_dataset_graph_ d) (partial_memory_ d)
    (last_overflow_bin_ d) (overflow_bin_path_ d) (stream_task_to_opname_ d).

Definition set_graph_ptr_ (v : option KernelGraph) (d : Debugger) : Debugger :=
  mkDebugger (grpc_client_ d) (debug_services_ d) v (device_id_ d) (device_target_ d)
    (num_step_ d) (debugger_enabled_ d) (run_level_ d) (node_name_ d) (cur_name_ d)
    (training_done_ d) (is_dataset_graph_ d) (partial_memory_ d)
    (last_overflow_bin_ d) (overflow_bin_path_ d) (stream_task_to_opname_ d).

Definition set_device_id_ (v : Z) (d : Debugger) : Debugger :=
  mkDebugger (grpc_client_ d) (debug_services_ d) (graph_ptr_ d) v (device_target_ d)
    (num_step_ d) (debugger_enabled_ d) (run_level_ d) (node_name_ d) (cur_name_ d)
    (training_done_ d) (is_dataset_graph_ d) (partial_memory_ d)
    (last_overflow_bin_ d) (overflow_bin_path_ d) (stream_task_to_opname_ d).

Definition set_device_target_ (v : string) (d : Debugger) : Debugger :=
  mkDebugger (grpc_client_ d) (debug_services_ d) (graph_ptr_ d) (device_id_ d) v
    (num_step_ d) (debugger_enabled_ d) (run_level_ d) (node_name_ d) (cur_name_ d)
    (training_done_ d) (is_dataset_graph_ d) (partial_memory_ d)
    (last_overflow_bin_ d) (overflow_bin_path_ d) (stream_task_to_opname_ d).

Definition set_num_step_ (v : Z) (d : Debugger) : Debugger :=
  mkDebugger (grpc_client_ d) (debug_services_ d) (graph_ptr_ d) (device_id_ d)
    (device_target_ d) v (debugger_enabled_ d) (run_level_ d) (node_name_ d)
    (cur_name_ d) (training_done_ d) (is_dataset_graph_ d) (partial_memory_ d)
    (last_overflow_bin_ d) (overflow_bin_path_ d) (stream_task_to_opname_ d).

Definition set_debugger_enabled_ (v : bool) (d : Debugger) : Debugger :=
  mkDebugger (grpc_client_ d) (debug_services_ d) (graph_ptr_ d) (device_id_ d)
    (device_target_ d) (num_step_ d) v (run_level_ d) (node_name_ d)
    (cur_name_ d) (training_done_ d) (is_dataset_graph_ d) (partial_memory_ d)
    (last_overflow_bin_ d) (overflow_bin_path_ d) (stream_task_to_opname_ d).

Definition set_run_level_ (v : string) (d : Debugger) : Debugger :=
  mkDebugger (grpc_client_ d) (debug_services_ d) (graph_ptr_ d) (device_id_ d)
    (device_target_ d) (num_step_ d) (debugger_enabled_ d) v (node_name_ d)
    (cur_name_ d) (training_done_ d) (is_dataset_graph_ d) (partial_memory_ d)
    (last_overflow_bin_ d) (overflow_bin_path_ d) (stream_task_to_opname_ d).

Definition set_node_name_ (v : string) (d : Debugger) : Debugger :=
  mkDebugger (grpc_client_ d) (debug_services_ d) (graph_ptr_ d) (device_id_ d)
    (device_target_ d) (num_step_ d) (debugger_enabled_ d) (run_level_ d) v
    (cur_name_ d) (training_done_ d) (is_dataset_graph_ d) (partial_memory_ d)
    (last_overflow_bin_ d) (overflow_bin_path_ d) (stream_task_to_opname_ d).

Definition set_cur_name_ (v : string) (d : Debugger) : Debugger :=
  mkDebugger (grpc_client_ d) (debug_services_ d) (graph_ptr_ d) (device_id_ d)
    (device_target_ d) (num_step_ d) (debugger_enabled_ d) (run_level_ d)
    (node_name_ d) v (training_done_ d) (is_dataset_graph_ d) (partial_memory_ d)
    (last_overflow_bin_ d) (overflow_bin_path_ d) (stream_task_to_opname_ d).

Definition set_training_done_ (v : bool) (d : Debugger) : Debugger :=
  mkDebugger (grpc_client_ d) (debug_services_ d) (graph_ptr_ d) (device_id_ d)
    (device_target_ d) (num_step_ d) (debugger_enabled_ d) (run_level_ d)
    (node_name_ d) (cur_name_ d) v (is_dataset_graph_ d) (partial_memory_ d)
    (last_overflow_bin_ d) (overflow_bin_path_ d) (stream_task_to_opname_ d).

Definition set_is_dataset_graph_ (v : bool) (d : Debugger) : Debugger :=
  mkDebugger (grpc_client_ d) (debug_services_ d) (graph_ptr_ d) (device_id_ d)
    (device_target_ d) (num_step_ d) (debugger_enabled_ d) (run_level_ d)
    (node_name_ d) (cur_name_ d) (training_done_ d) v (partial_memory_ d)
    (last_overflow_bin_ d) (overflow_bin_path_ d) (stream_task_to_opname_ d).

Definition set_partial_memory_ (v : bool) (d : Debugger) : Debugger :=
  mkDebugger (grpc_client_ d) (debug_services_ d) (graph_ptr_ d) (device_id_ d)
    (device_target_ d) (num_step_ d) (debugger_enabled_ d) (run_level_ d)
    (node_name_ d) (cur_name_ d) (training_done_ d) (is_dataset_graph_ d) v
    (last_overflow_bin_ d) (overflow_bin_path_ d) (stream_task_to_opname_ d).

Definition set_last_overflow_bin_ (v : double) (d : Debugger) : Debugger :=
  mkDebugger (grpc_client_ d) (debug_services_ d) (graph_ptr_ d) (device_id_ d)
    (device_target_ d) (num_step_ d) (debugger_enabled_ d) (run_level_ d)
    (node_name_ d) (cur_name_ d) (training_done_ d) (is_dataset_graph_ d)
    (partial_memory_ d) v (overflow_bin_path_ d) (stream_task_to_opname_ d).

Definition set_overflow_bin_path_ (v : string) (d : Debugger) : Debugger :=
  mkDebugger (grpc_client_ d) (debug_services_ d) (graph_ptr_ d) (device_id_ d)
    (device_target_ d) (num_step_ d) (debugger_enabled_ d) (run_level_ d)
    (node_name_ d) (cur_name_ d) (training_done_ d) (is_dataset_graph_ d)
    (partial_memory_ d) (last_overflow_bin_ d) v (stream_task_to_opname_ d).

Definition set_stream_task_to_opname_ (v : gmap (Z * Z) string) (d : Debugger) : Debugger :=
  mkDebugger (grpc_client_ d) (debug_services_ d) (graph_ptr_ d) (device_id_ d)
    (device_target_ d) (num_step_ d) (debugger_enabled_ d) (run_level_ d)
    (node_name_ d) (cur_name_ d) (training_done_ d) (is_dataset_graph_ d)
    (partial_memory_ d) (last_overflow_bin_ d) (overflow_bin_path_ d) v.

(** ** Members that only touch the object *)

Definition Init (device_id : Z) (device_target : string) (d : Debugger) : Debugger :=
  set_device_target_ device_target (set_device_id_ device_id d).

Definition Reset (d : Debugger) : Debugger :=
  let d := set_device_id_ 0 d in
  let d := set_device_target_ "" d in
  let d := set_num_step_ 0 d in
  let d := set_debugger_enabled_ false d in
  let d := set_is_dataset_graph_ false d in
  let d := set_partial_memory_ false d in
  let d := set_graph_ptr_ None d in
  let d := set_grpc_client_ None d in
  let d := set_debug_services_ None d in
  let d := set_last_overflow_bin_ (Finite 0) d in
  let d := set_overflow_bin_path_ "" d in
  set_stream_task_to_opname_ ∅ d.

Definition SetCurNode (cur_name : string) (d : Debugger) : Debugger :=
  set_cur_name_ cur_name d.

Definition SetStepNum (cur_num_step : Z) (d : Debugger) : Debugger :=
  set_num_step_ cur_num_step d.

Definition SetTrainingDone (training_done : bool) (d : Debugger) : Debugger :=
  set_training_done_ training_done d.

Definition CheckDebuggerDumpEnabled `{Host} (d : Debugger) : bool :=
  if String.eqb (device_target_ d) kGPUDevice then DumpDataEnabled (device_id_ d)
  else false.

Definition CheckDebuggerEnabled `{Host} : bool :=
  match getenv "ENABLE_MS_DEBUGGER" with
  | Some env_enable_str => String.eqb env_enable_str "1"
  | None => false
  end.

Definition DebuggerBackendEnabled `{Host} (d : Debugger) : bool :=
  CheckDebuggerDumpEnabled d || CheckDebuggerEnabled.

(** The search of [CheckDatasetGraph] through the execution order. *)
Fixpoint has_dataset_node (nodes : list CNode) : bool :=
  match nodes with
  | [] => false
  | node :: rest =>
      let node_name := cnode_name node in
      if String.eqb node_name "GetNext" || String.eqb node_name "InitDataSetQueue"
      then true
      else has_dataset_node rest
  end.

(** [None]: [graph_ptr_] is null and is dereferenced. *)
Definition CheckDatasetGraph (d : Debugger) : option Debugger :=
  g ← graph_ptr_ d;
  Some (set_is_dataset_graph_ (has_dataset_node (execution_order g)) d).

Definition GetGraphProto (g : KernelGraph) : GraphProto := GraphProtoOf g.

Definition SetWatchpoint (nodes : list WatchNode) (condition : WatchCondition) (id : Z)
    (ds : DebugServices) : DebugServices :=
  let check_node_list :=
    map (fun node => (wn_node_name node, String.eqb (wn_node_type node) "scope")) nodes in
  AddWatchpoint id (wc_condition condition) (wc_value condition) check_node_list ds.

Definition RemoveWatchpoint (id : Z) (ds : DebugServices) : DebugServices :=
  DS_RemoveWatchpoint id ds.

(** ** Overflow records (device build) *)

Definition BUF_SIZ : nat := 256.

(** [infile.seekg(313); buffer.resize(BUF_SIZ); infile.read(buffer.data(),
    BUF_SIZ)]: the bytes of the file from offset 313 on, in a zero-filled
    buffer of [BUF_SIZ] bytes. *)
Definition read_record_window (content : list byte) : list byte :=
  take BUF_SIZ (drop 313 content ++ replicate BUF_SIZ 0).

(** How a member function ends that calls [std::stod] outside any [try]
    block. *)
Inductive Call (A : Type) :=
| Returns (a : A)             (* it returns *)
| Throws (d : Debugger)       (* the exception of std::stod leaves it; the object then *)
| UndefinedCall.              (* a null pointer is dereferenced *)

Arguments Returns {A} a.
Arguments Throws {A} d.
Arguments UndefinedCall {A}.

(** How a [while ((dir = readdir(d)) != NULL)] loop ends, and the state of
    what the loop updates then. *)
Inductive Loop (A : Type) :=
| Finished (a : A)            (* readdir has no more entries *)
| Interrupted (a : A).        (* the body has thrown *)

Arguments Finished {A} a.
Arguments Interrupted {A} a.

(** The entries in the order in which [readdir] gives them.  A pass of the
    body that answers [None] has thrown, and has changed nothing before. *)
Fixpoint readdir_loop {A : Type} (body : A -> dirent -> option A)
    (entries : list dirent) (acc : A) : Loop A :=
  match entries with
  | [] => Finished acc
  | dir :: entries =>
      match body acc dir with
      | Some acc => readdir_loop body entries acc
      | None => Interrupted acc
      end
  end.

(** The body of the [readdir] loop of [CheckOpOverflow] for one directory
    entry; [bin_list] and [op_names] are the two vectors it appends to. *)
Definition CheckOpOverflow_entry `{Host} (d : Debugger)
    (acc : list double * list string) (dir : dirent)
    : option (list double * list string) :=
  let '(bin_list, op_names) := acc in
  if d_is_reg dir then
    let file_path := overflow_bin_path_ d +:+ d_name dir in
    let file_name := d_name dir in
    let found := find_last_of file_name "." in
    if found =? npos then Some acc
    else
      let overflow_time := substr file_name (to_uint64 (found + 1)) in
      time ← stod overflow_time;
      if double_le time (last_overflow_bin_ d) then Some acc
      else
        time ← stod overflow_time;
        let bin_list := (bin_list ++ [time])%list in
        match open_file file_path with
        | None => Some (bin_list, op_names)
        | Some content =>
            let buffer := read_record_window content in
            let stream_id := BytestoInt64 (drop 8 buffer) in
            let task_id := BytestoInt64 (drop 16 buffer) in
            match stream_task_to_opname_ d !! (to_uint32 stream_id, to_uint32 task_id) with
            | Some op => Some (bin_list, (op_names ++ [op])%list)
            | None => Some (bin_list, op_names)
            end
        end
  else Some acc.

(** [for (auto &i : bin_list) if (i > last_overflow_bin_) last_overflow_bin_ = i;] *)
Definition raise_watermark (last : double) (bin_list : list double) : double :=
  fold_left (fun last i => if double_gt i last then i else last) bin_list last.

(** [CheckOpOverflow]: the names of the overflowed operations, and the
    object with its new watermark.  The watermark is written after the loop
    only, so an exception in the loop leaves the object as it was.  (Without
    a directory the code goes on to [closedir(NULL)], which glibc answers
    with EINVAL.) *)
Definition CheckOpOverflow `{Host} (d : Debugger) : Call (list string * Debugger) :=
  let scan :=
    match opendir (overflow_bin_path_ d) with
    | Some entries => readdir_loop (CheckOpOverflow_entry d) entries ([], [])
    | None => Finished ([], [])
    end in
  match scan with
  | Finished (bin_list, op_names) =>
      Returns (op_names,
               set_last_overflow_bin_ (raise_watermark (last_overflow_bin_ d) bin_list) d)
  | Interrupted _ => Throws d
  end.

(** The body of the [readdir] loop of [EnableDebugger]; the state of the
    loop is the member [last_overflow_bin_]. *)
Definition EnableDebugger_entry `{Host} (path : string) (last : double) (dir : dirent)
    : option double :=
  if d_is_reg dir then
    let file_path := path +:+ d_name dir in
    let found := find_last_of file_path "." in
    if found =? npos then Some last
    else
      let overflow_time := substr file_path (to_uint64 (found + 1)) in
      time ← stod overflow_time;
      if double_le time last then Some last
      else stod overflow_time
  else Some last.

(** The [#ifdef ENABLE_D] block of [EnableDebugger].  It is undefined when
    [graph_ptr_] is null; an exception leaves it with the path set and the
    watermark where the loop had brought it. *)
Definition EnableDebugger_overflow_info `{Host} (d : Debugger) : Call Debugger :=
  match graph_ptr_ d with
  | None => UndefinedCall
  | Some g =>
      let d := set_overflow_bin_path_ (GetOpOverflowBinPath (graph_id g) (device_id_ d)) d in
      let d := set_last_overflow_bin_ (Finite 0) d in
      match opendir (overflow_bin_path_ d) with
      | Some entries =>
          match readdir_loop (EnableDebugger_entry (overflow_bin_path_ d)) entries
                             (last_overflow_bin_ d) with
          | Finished last => Returns (set_last_overflow_bin_ last d)
          | Interrupted last => Throws (set_last_overflow_bin_ last d)
          end
      | None => Returns d
      end
  end.

(** ** The process: object, pending replies, and what was done so far *)

Inductive Event :=
| EvSendMetadata (client : GrpcClient) (metadata : Metadata)
| EvSendGraph (client : GrpcClient) (graph : GraphProto)
| EvWaitForCommand (client : GrpcClient) (metadata : Metadata)
| EvSendWatchpointHits (client : GrpcClient) (points : list WatchpointHit)
| EvSendTensors (client : GrpcClient) (tensors : list TensorProto)
| EvSleep (milliseconds : Z)
| EvSetMemReuse (enable : bool)
| EvClearResAtexit
| EvExit (status : Z).

(** [inbox]: the replies that [WaitForCommand] is going to receive, in
    order.  The status of the other replies is only logged. *)
Record Process := mkProcess {
  dbg : Debugger;
  inbox : list EventReply;
  trace : list Event
}.

Inductive Outcome :=
| Returned (p : Process)          (* the call returned *)
| Thrown (p : Process)            (* the exception of std::stod left the call *)
| Exited (trace : list Event)     (* std::exit was called *)
| Blocked (p : Process)           (* WaitForCommand has not been answered *)
| Undefined.                      (* null dereference or signed overflow *)

Definition and_then (o : Outcome) (k : Process -> Outcome) : Outcome :=
  match o with
  | Returned p => k p
  | _ => o
  end.

Notation "o >>> k" := (and_then o k) (at level 61, left associativity).

Definition emit (e : Event) (p : Process) : Process :=
  mkProcess (dbg p) (inbox p) (trace p ++ [e])%list.

Definition with_dbg (d : Debugger) (p : Process) : Process :=
  mkProcess d (inbox p) (trace p).

Definition EXIT_FAILURE : Z := 1.

(** [Debugger::Exit] *)
Definition Exit (p : Process) : Outcome :=
  Exited (trace p ++ [EvClearResAtexit; EvExit EXIT_FAILURE])%list.

(** [std::to_string] of an unsigned number. *)
Definition to_string (n : Z) : string :=
  NilEmpty.string_of_uint (N.to_uint (Z.to_N n)).

(** The metadata that [SendMetadata] and [CommandLoop] prepare; [None]:
    [graph_ptr_] is null. *)
Definition prepare_metadata (d : Debugger) : option Metadata :=
  g ← graph_ptr_ d;
  let device_name := to_string (device_id_ d) +:+ ":" +:+ to_string (graph_id g) in
  Some (mkMetadata device_name (num_step_ d) (device_target_ d) (cur_name_ d)
                   (training_done_ d)).

Definition SendMetadata (p : Process) : Outcome :=
  match prepare_metadata (dbg p), grpc_client_ (dbg p) with
  | Some metadata, Some client => Returned (emit (EvSendMetadata client metadata) p)
  | _, _ => Undefined
  end.

(** ** CommandLoop *)

Definition max_num_wait_fail : Z := 5.

(** The [while (!run)] loop of [CommandLoop], by recursion on the replies
    that are still to come.  [num_wait_fail] is the local counter. *)
Fixpoint CommandLoop_while `{Host} (replies : list EventReply) (metadata : Metadata)
    (num_wait_fail : Z) (d : Debugger) (tr : list Event) : Outcome :=
  match grpc_client_ d with
  | None => Undefined
  | Some client =>
      (* wait for command *)
      let tr := (tr ++ [EvWaitForCommand client metadata])%list in
      match replies with
      | [] => Blocked (mkProcess d [] tr)
      | reply :: replies =>
          if negb (status_OK reply) then
            let num_wait_fail := num_wait_fail + 1 in
            if max_num_wait_fail <? num_wait_fail then
              Exit (mkProcess d replies tr)
            else
              CommandLoop_while replies metadata num_wait_fail d
                                (tr ++ [EvSleep (1000 * num_wait_fail)])%list
          else
            match GetCommand reply with
            | kUnknownCMD => CommandLoop_while replies metadata num_wait_fail d tr
            | kExitCMD => Exit (mkProcess d replies tr)
            | kRunCMD =>
                let d := set_run_level_ (GetRunLevel reply) d in
                let d := set_node_name_ (GetNodeName reply) d in
                (* exit loop *)
                Returned (mkProcess d replies tr)
            | kSetCMD =>
                match debug_services_ d with
                | None => Undefined
                | Some ds =>
                    let ds :=
                      if GetWatchpointDelete reply
                      then RemoveWatchpoint (GetWatchpointID reply) ds
                      else SetWatchpoint (GetWatchnodes reply) (GetWatchcondition reply)
                                         (GetWatchpointID reply) ds in
                    CommandLoop_while replies metadata num_wait_fail
                                      (set_debug_services_ (Some ds) d) tr
                end
            | kViewCMD =>
                match LoadTensors (debug_services_ d) (GetTensors reply) with
                | None => Undefined
                | Some tensors =>
                    CommandLoop_while replies metadata num_wait_fail d
                                      (tr ++ [EvSendTensors client tensors])%list
                end
            end
      end
  end.

Definition CommandLoop `{Host} (p : Process) : Outcome :=
  match prepare_metadata (dbg p) with
  | None => Undefined
  | Some metadata => CommandLoop_while (inbox p) metadata 0 (dbg p) (trace p)
  end.

Definition SendGraphAndSuspend `{Host} (graph_proto : GraphProto) (p : Process) : Outcome :=
  SendMetadata p >>> fun p =>
  match grpc_client_ (dbg p) with
  | None => Undefined
  | Some client => CommandLoop (emit (EvSendGraph client graph_proto) p)
  end.

(** ** Watchpoints *)




(** ** EnableDebugger *)

Definition EnableDebugger `{Host} (p : Process) : Outcome :=
  (* reset some of the class members *)
  let d := set_num_step_ 0 (dbg p) in
  let d := set_debugger_enabled_ false d in
  let d := set_partial_memory_ false d in
  let d := set_grpc_client_ None d in
  let d := set_debug_services_ None d in
  let dump_enabled := CheckDebuggerDumpEnabled d in
  let d := set_debugger_enabled_ CheckDebuggerEnabled d in
  if negb (debugger_enabled_ d) && negb dump_enabled then Returned (with_dbg d p)
  else
    (* configure grpc host *)
    let '(host, d) :=
      match getenv "MS_DEBUGGER_HOST" with
      | Some host_str =>
          if regex_match host_str reg_ip then (host_str, d)
          else ("", set_debugger_enabled_ false d)
      | None => ("localhost", d)
      end in
    (* configure grpc port *)
    let '(port, d) :=
      match getenv "MS_DEBUGGER_PORT" with
      | Some port_str =>
          if CheckPort port_str then (port_str, d)
          else ("", set_debugger_enabled_ false d)
      | None => ("50051", d)
      end in
    (* configure partial memory reuse *)
    let d :=
      match getenv "MS_DEBUGGER_PARTIAL_MEM" with
      | Some str => if String.eqb str "1" then set_partial_memory_ true d else d
      | None => d
      end in
    let p := emit (EvSetMemReuse (partial_memory_ d)) (with_dbg d p) in
    match (if ENABLE_D then EnableDebugger_overflow_info d else Returns d) with
    | UndefinedCall => Undefined
    | Throws d => Thrown (with_dbg d p)
    | Returns d =>
        (* initialize grpc client *)
        let d :=
          if debugger_enabled_ d
          then set_grpc_client_ (Some (mkGrpcClient host port)) d
          else d in
        let d := set_debug_services_ (Some DebugServices_new) d in
        Returned (with_dbg d p)
    end.

(** ** The hooks of the execution engine *)

Definition CheckGraphPtr `{Host} (graph_ptr : KernelGraph) (p : Process) : Outcome :=
  if graph_ptr_differs (graph_ptr_ (dbg p)) graph_ptr then
    (* save new graph_ptr *)
    let d := set_graph_ptr_ (Some graph_ptr) (dbg p) in
    (* check if it is dataset graph *)
    match CheckDatasetGraph d with
    | None => Undefined
    | Some d =>
        if negb (is_dataset_graph_ d) then
          (* only try to enable debugger if it is not a dataset graph *)
          EnableDebugger (with_dbg d p) >>> fun p =>
          if debugger_enabled_ (dbg p) then
            match graph_ptr_ (dbg p) with
            | None => Undefined
            | Some g => SendGraphAndSuspend (GetGraphProto g) p
            end
          else Returned p
        else Returned (with_dbg d p)
    end
  else Returned p.

Definition PreExecute `{Host} (graph_ptr : KernelGraph) (p : Process) : Outcome :=
  if DebuggerBackendEnabled (dbg p) then CheckGraphPtr graph_ptr p
  else Returned p.


(** [PostDebugOp]: suspend if the debugger is enabled. *)
Definition PostDebugOp `{Host} (p : Process) : Outcome :=
  if debugger_enabled_ (dbg p) && negb (is_dataset_graph_ (dbg p)) then CommandLoop p
  else Returned p.

(** ** Reference notions used in the statements *)

(** The number that the first eight bytes of a buffer denote in
    little-endian order. *)
Definition little_endian_value (buffer : list byte) : Z :=
  nth 0 buffer 0 + nth 1 buffer 0 * 2 ^ 8 + nth 2 buffer 0 * 2 ^ 16
  + nth 3 buffer 0 * 2 ^ 24 + nth 4 buffer 0 * 2 ^ 32 + nth 5 buffer 0 * 2 ^ 40
  + nth 6 buffer 0 * 2 ^ 48 + nth 7 buffer 0 * 2 ^ 56.

(** The integers [lo], [lo + 1], ..., [lo + n - 1]: the range of a check by
    enumeration. *)
Fixpoint zrange (lo : Z) (n : nat) : list Z :=
  match n with
  | O => []
  | S n' => lo :: zrange (lo + 1) n'
  end.

(** The character of the decimal digit [d]. *)
Definition digit_char (d : Z) : ascii := ascii_of_N (Z.to_N (48 + d)).

(** A port number in the sense of the error message of [EnableDebugger]
    ("Custom port ranging from 1 to 65535"): the decimal numeral of an
    integer between 1 and 65535. *)
Definition is_port_number (s : string) : Prop :=
  exists n : Z, 1 <= n <= 65535 /\ s = to_string n.

(** What a View request is answered for one requested tensor, read off the
    snapshot cache: the placeholder when the cache does not hold the tensor,
    its chunks when it does. *)
Definition View_answer `{Host} (ds : DebugServices) (tensor : TensorProto)
    : option (list TensorProto) :=
  match SearchTensor ds (GetTensorFullName tensor) with
  | None => Some [empty_tensor_item tensor]
  | Some td => LoadTensors_chunks tensor (NodeTensor_of td)
  end.

Fixpoint View_answers `{Host} (ds : DebugServices) (tensors : list TensorProto)
    : option (list TensorProto) :=
  match tensors with
  | [] => Some []
  | tensor :: rest =>
      head ← View_answer ds tensor;
      more ← View_answers ds rest;
      Some (head ++ more)%list
  end.

(** [l] transfers [payload] for the request [tensor] out of the capture [r]:
    the contents of the chunks add up to the payload, no chunk exceeds
    [CHUNK_SIZE], exactly the last chunk is marked finished, and every chunk
    names the request and carries type and shape of the capture. *)
Definition chunked_transfer `{Host} (tensor : TensorProto) (r : NodeTensor)
    (payload : list byte) (l : list TensorProto) : Prop :=
  concat (map tensor_content l) = payload
  /\ Forall (fun c => Z.of_nat (length (tensor_content c)) <= CHUNK_SIZE) l
  /\ (forall (i : nat) (c : TensorProto),
        l !! i = Some c -> (finished c = true <-> S i = length l))
  /\ Forall (fun c => node_name c = node_name tensor /\ slot c = slot tensor
                     /\ iter c = iter tensor /\ truncate c = truncate tensor
                     /\ data_type c = GetDebuggerNumberDataType (dtype r)
                     /\ dims c = shape r) l.

(** The largest payload that [LoadTensors] can chunk without its [int]
    offset overflowing: 682 chunks. *)
Definition MAX_CHUNKED_SIZE : Z := 682 * CHUNK_SIZE.

(** What follows the last '.' of a name, when there is a '.'. *)
Definition suffix (name : string) : option string :=
  let found := find_last_of name "." in
  if found =? npos then None
  else Some (substr name (to_uint64 (found + 1))).

(** The time stamp in the name of an overflow record: [stod] of its suffix,
    where [stod] converts it. *)
Definition record_time `{Host} (name : string) : option double :=
  overflow_time ← suffix name; stod overflow_time.

(** A name with a suffix that [stod] does not convert. *)
Definition is_unreadable_name `{Host} (name : string) : bool :=
  match suffix name with
  | Some overflow_time =>
      match stod overflow_time with
      | Some _ => false
      | None => true
      end
  | None => false
  end.

(** A regular file that a [CheckOpOverflow] scan cannot read the time stamp
    of. *)
Definition is_unreadable `{Host} (dir : dirent) : bool :=
  d_is_reg dir && is_unreadable_name (d_name dir).

(** The same for the rescan of [EnableDebugger] in the directory [path]: it
    looks for the '.' in the whole path of a file. *)
Definition is_unreadable_at `{Host} (path : string) (dir : dirent) : bool :=
  d_is_reg dir && is_unreadable_name (path +:+ d_name dir).

(** A directory entry that is new for a scan with watermark [w]: a regular
    file whose time stamp is strictly greater than [w]. *)
Definition is_new_record `{Host} (w : double) (dir : dirent) : bool :=
  d_is_reg dir
  && match record_time (d_name dir) with
     | Some t => double_gt t w
     | None => false
     end.

(** A regular file with a time stamp that is not ordered with the watermark
    [w]: the time stamp is NaN, or [w] is. *)
Definition is_unordered_record `{Host} (w : double) (dir : dirent) : bool :=
  d_is_reg dir
  && match record_time (d_name dir) with
     | Some t => is_nan t || is_nan w
     | None => false
     end.

(** The time stamps that the rescan of [EnableDebugger] sees in the
    directory [path]. *)
Definition rescan_times `{Host} (path : string) (entries : list dirent) : list double :=
  omap (fun dir => record_time (path +:+ d_name dir)) (List.filter d_is_reg entries).


(** The operation that an overflow record names: stream and task identifier
    are read from the record and looked up. *)
Definition overflowed_op `{Host} (d : Debugger) (dir : dirent) : option string :=
  content ← open_file (overflow_bin_path_ d +:+ d_name dir);
  let buffer := read_record_window content in
  stream_task_to_opname_ d
    !! (to_uint32 (BytestoInt64 (drop 8 buffer)), to_uint32 (BytestoInt64 (drop 16 buffer))).

(** The strings that a regular expression denotes. *)
Fixpoint lang (r : regex) (s : string) : Prop :=
  match r with
  | Chr c => s = String c ""
  | Range lo hi =>
      exists a, s = String a "" /\ char_code lo <= char_code a <= char_code hi
  | Seq r1 r2 => exists s1 s2, s = s1 +:+ s2 /\ lang r1 s1 /\ lang r2 s2
  | Alt r1 r2 => lang r1 s \/ lang r2 s
  end.

(** The dotted quad of four numbers. *)
Definition dotted_quad (a b c d : Z) : string :=
  to_string a +:+ "." +:+ to_string b +:+ "." +:+ to_string c +:+ "." +:+ to_string d.

(** A well-formed IPv4 address in dotted-quad notation. *)
Definition is_ipv4_dotted_quad (s : string) : Prop :=
  exists a b c d : Z,
    0 <= a <= 255 /\ 0 <= b <= 255 /\ 0 <= c <= 255 /\ 0 <= d <= 255
    /\ s = dotted_quad a b c d.

(** ** Sample hosts and sessions *)

(** A bare host: nothing in the environment, no overflow directory. *)
Definition host_bare (signed_char device_build : bool) : Host := {|
  char_signed := signed_char;
  ENABLE_D := device_build;
  getenv := fun _ => None;
  DumpDataEnabled := fun _ => false;
  opendir := fun _ => None;
  open_file := fun _ => None;
  stod := fun _ => None;
  GetOpOverflowBinPath := fun _ _ => "";
  GetDebuggerNumberDataType := fun ty => ty;
  DS_CheckWatchpoints := fun _ _ _ => []
|}.

Definition host_signed_char : Host := host_bare true false.

(** A host on which the debugger is switched on and MS_DEBUGGER_PORT is set
    to the empty string. *)
Definition host_empty_port : Host := {|
  char_signed := true;
  ENABLE_D := false;
  getenv := fun name =>
    if String.eqb name "ENABLE_MS_DEBUGGER" then Some "1"
    else if String.eqb name "MS_DEBUGGER_PORT" then Some ""
    else None;
  DumpDataEnabled := fun _ => false;
  opendir := fun _ => None;
  open_file := fun _ => None;
  stod := fun _ => None;
  GetOpOverflowBinPath := fun _ _ => "";
  GetDebuggerNumberDataType := fun ty => ty;
  DS_CheckWatchpoints := fun _ _ _ => []
|}.

(** A GPU session in step mode: the debugger is switched on, a graph is
    bound, one watchpoint is set, and watchpoint evaluation finds a hit. *)
Definition host_gpu : Host := {|
  char_signed := true;
  ENABLE_D := false;
  getenv := fun name => if String.eqb name "ENABLE_MS_DEBUGGER" then Some "1" else None;
  DumpDataEnabled := fun _ => false;
  opendir := fun _ => None;
  open_file := fun _ => None;
  stod := fun _ => None;
  GetOpOverflowBinPath := fun _ _ => "";
  GetDebuggerNumberDataType := fun ty => ty;
  DS_CheckWatchpoints := fun _ _ _ => [mkHitRecord "conv" "0" 1 7]
|}.

Definition gpu_session : Process :=
  mkProcess
    (mkDebugger (Some (mkGrpcClient "localhost" "50051"))
                (Some (mkDebugServices
                         {[ 7 := mkWatchpoint 7 1 0 [("conv", false)] ]}
                         [mkTensorData "conv" "conv:0" [0; 0; 128; 127] 1 [1]]))
                (Some (mkKernelGraph 1 0 [] [mkCNode "Conv2D" "conv"]))
                0 kGPUDevice 3 true "step" "" "" false false false (Finite 0) "" ∅)
    [mkEventReply true (RunCmd "step" "")]
    [].

(** A device session with overflow records.  The directory of graph 1 holds
    records with the time stamps 3.1, 7.2 and 2.0 (and, later, one with 5.0);
    the directory of graph 2 holds one record with the time stamp 5.0.  The
    record "b.72e-1" names stream 3, task 100.  [sample_stod] converts the
    suffixes of these records (a rational stands for the [double] nearest to
    it) and "nan", and throws on every other string. *)
Definition sample_stod (s : string) : option double :=
  if String.eqb s "31e-1" then Some (Finite (31 # 10))
  else if String.eqb s "72e-1" then Some (Finite (72 # 10))
  else if String.eqb s "2" then Some (Finite 2)
  else if String.eqb s "5" then Some (Finite 5)
  else if String.eqb s "nan" then Some NaN
  else None.

Definition sample_records : list dirent :=
  [mkDirent false "."; mkDirent true "a.31e-1"; mkDirent true "b.72e-1";
   mkDirent true "c.2"; mkDirent true "README"].

(** The device host whose directory of graph 1 holds [records]. *)
Definition host_records (records : list dirent) : Host := {|
  char_signed := true;
  ENABLE_D := true;
  getenv := fun name => if String.eqb name "ENABLE_MS_DEBUGGER" then Some "1" else None;
  DumpDataEnabled := fun _ => false;
  opendir := fun path =>
    if String.eqb path "/of/1/" then Some records
    else if String.eqb path "/of/2/" then Some [mkDirent true "d.5"]
    else None;
  open_file := fun path =>
    if String.eqb path "/of/1/b.72e-1"
    then Some (replicate 321 0 ++ [3; 0; 0; 0; 0; 0; 0; 0] ++ [100; 0; 0; 0; 0; 0; 0; 0])%list
    else None;
  stod := sample_stod;
  GetOpOverflowBinPath := fun graph_id _ => "/of/" +:+ to_string graph_id +:+ "/";
  GetDebuggerNumberDataType := fun ty => ty;
  DS_CheckWatchpoints := fun _ _ _ => []
|}.

Definition host_overflow (later : bool) : Host :=
  host_records
    (if later then sample_records ++ [mkDirent true "d.5"] else sample_records)%list.

Definition overflow_session : Debugger :=
  mkDebugger (Some (mkGrpcClient "localhost" "50051"))
             (Some DebugServices_new)
             (Some (mkKernelGraph 1 1 [] [mkCNode "Conv2D" "conv"]))
             0 "Ascend" 0 true "step" "" "" false false false
             (Finite 0) "/of/1/" {[ (3, 100) := "Conv2D" ]}.

(** ** Proof automation *)

(** Replace the codes of the literal characters of [reg_ip] by numbers. *)
Ltac literal_codes :=
  change (char_code "0") with 48 in *; change (char_code "1") with 49 in *;
  change (char_code "2") with 50 in *; change (char_code "4") with 52 in *;
  change (char_code "5") with 53 in *; change (char_code "9") with 57 in *.

(** Take apart a member of the language of an octet expression. *)
Ltac octet_digits :=
  repeat match goal with
         | H : _ \/ _ |- _ => destruct H as [H | H]
         | H : exists _, _ |- _ => destruct H as (? & H)
         | H : _ /\ _ |- _ => destruct H as (? & H)
         end;
  subst; literal_codes.


(** * Properties *)

(** ** Reset *)

(** C10.  [Reset] puts the device identity, the step counter, the enabled,
    dataset-graph and partial-memory flags, the graph binding, the transport
    client, the watch store, the overflow watermark and path and the
    (stream, task) map back to the values the constructor gives them, and
    leaves the run level, the target node name, the current node name and
    the training-done flag as they were. *)
Theorem Reset_restores_and_preserves (d : Debugger) :
  (device_id_ (Reset d) = device_id_ Debugger_new
   /\ device_target_ (Reset d) = device_target_ Debugger_new
   /\ num_step_ (Reset d) = num_step_ Debugger_new
   /\ debugger_enabled_ (Reset d) = debugger_enabled_ Debugger_new
   /\ is_dataset_graph_ (Reset d) = is_dataset_graph_ Debugger_new
   /\ partial_memory_ (Reset d) = partial_memory_ Debugger_new
   /\ graph_ptr_ (Reset d) = graph_ptr_ Debugger_new
   /\ grpc_client_ (Reset d) = grpc_client_ Debugger_new
   /\ debug_services_ (Reset d) = debug_services_ Debugger_new
   /\ last_overflow_bin_ (Reset d) = last_overflow_bin_ Debugger_new
   /\ overflow_bin_path_ (Reset d) = overflow_bin_path_ Debugger_new
   /\ stream_task_to_opname_ (Reset d) = stream_task_to_opname_ Debugger_new)
  /\ (run_level_ (Reset d) = run_level_ d
      /\ node_name_ (Reset d) = node_name_ d
      /\ cur_name_ (Reset d) = cur_name_ d
      /\ training_done_ (Reset d) = training_done_ d).
Proof.
  destruct d; cbn. repeat split.
Qed.

(** The members that [Reset] leaves alone are exactly the ones that keep a
    reset object from being a fresh one. *)
Lemma Reset_is_new_up_to_run_state (d : Debugger) :
  Reset d =
  set_training_done_ (training_done_ d)
    (set_cur_name_ (cur_name_ d)
       (set_node_name_ (node_name_ d)
          (set_run_level_ (run_level_ d) Debugger_new))).
Proof. destruct d; reflexivity. Qed.

(** ** std::string searches *)

Lemma find_last_of_from_absent (s : string) (c : ascii) (i found : Z) :
  char_in c s = false ->
  find_last_of_from s (String c EmptyString) i found = found.
Proof.
  revert i found. induction s as [|a s IH]; intros i found Hs; cbn in *.
  - reflexivity.
  - apply orb_false_iff in Hs as [Hca Hs].
    rewrite Ascii.eqb_sym in Hca. rewrite Hca. cbn. now apply IH.
Qed.

Lemma append_empty_l (s : string) : "" +:+ s = s.
Proof. reflexivity. Qed.

Lemma append_cons (a : ascii) (s t : string) : String a s +:+ t = String a (s +:+ t).
Proof. reflexivity. Qed.

Lemma find_last_of_from_last (pre suf : string) (c : ascii) (i found : Z) :
  char_in c suf = false ->
  find_last_of_from (pre +:+ String c suf) (String c EmptyString) i found
  = i + Z.of_nat (String.length pre).
Proof.
  intros Hsuf. revert i found.
  induction pre as [|a pre IH]; intros i found.
  - rewrite append_empty_l. cbn [find_last_of_from char_in].
    rewrite Ascii.eqb_refl. cbn [orb].
    rewrite find_last_of_from_absent by assumption. cbn [String.length]. lia.
  - rewrite append_cons. cbn [find_last_of_from]. rewrite IH.
    cbn [String.length]. lia.
Qed.

Lemma drop_chars_app (pre s : string) :
  drop_chars (String.length pre) (pre +:+ s) = s.
Proof.
  induction pre as [|a pre IH]; [now destruct s |].
  rewrite append_cons. exact IH.
Qed.

Lemma length_append (s1 s2 : string) :
  String.length (s1 +:+ s2) = (String.length s1 + String.length s2)%nat.
Proof.
  induction s1 as [|a s1 IH]; [reflexivity |].
  rewrite append_cons. cbn [String.length]. now rewrite IH.
Qed.

(** Either [find_last_of] answers [npos], or an index inside the string. *)
Lemma find_last_of_from_range (s chars : string) (i found : Z) :
  find_last_of_from s chars i found = found
  \/ i <= find_last_of_from s chars i found < i + Z.of_nat (String.length s).
Proof.
  revert i found. induction s as [|a s IH]; intros i found; cbn [find_last_of_from].
  - now left.
  - cbn [String.length].
    destruct (char_in a chars).
    + right. destruct (IH (i + 1) i) as [-> | Hr]; lia.
    + destruct (IH (i + 1) found) as [-> | Hr]; [now left | right; lia].
Qed.

(** The position [found + 1] that [GetTensorFullName] hands to [substr] is
    never past the end of the string: [substr] does not throw. *)
Lemma find_last_of_next_le (s chars : string) :
  Z.of_nat (String.length s) < UINT64_MOD ->
  0 <= to_uint64 (find_last_of s chars + 1) <= Z.of_nat (String.length s).
Proof.
  intros Hlen. unfold find_last_of, to_uint64.
  destruct (find_last_of_from_range s chars 0 npos) as [-> | Hr].
  - replace (npos + 1) with UINT64_MOD by (unfold npos; lia).
    rewrite Z.mod_same by (unfold UINT64_MOD; lia). lia.
  - rewrite Z.mod_small by lia. lia.
Qed.

Lemma without_separator (c : ascii) (s : string) :
  char_in c s = false ->
  substr s (to_uint64 (find_last_of s (String c "") + 1)) = s.
Proof.
  intros Hs. unfold find_last_of. rewrite find_last_of_from_absent by assumption.
  reflexivity.
Qed.

Lemma drop_chars_past_separator (pre suf : string) (c : ascii) :
  drop_chars (S (String.length pre)) (pre +:+ String c suf) = suf.
Proof.
  induction pre as [|a pre IH]; [reflexivity |].
  rewrite append_cons. exact IH.
Qed.

Lemma after_last_separator (c : ascii) (pre suf : string) :
  Z.of_nat (String.length (pre +:+ String c suf)) < UINT64_MOD ->
  char_in c suf = false ->
  substr (pre +:+ String c suf)
         (to_uint64 (find_last_of (pre +:+ String c suf) (String c "") + 1)) = suf.
Proof.
  intros Hlen Hsuf. unfold find_last_of.
  rewrite find_last_of_from_last by assumption.
  rewrite length_append in Hlen. cbn [String.length] in Hlen.
  unfold to_uint64, substr. rewrite Z.mod_small by lia.
  replace (Z.to_nat (0 + Z.of_nat (String.length pre) + 1))
    with (S (String.length pre)) by lia.
  apply drop_chars_past_separator.
Qed.

(** ** GetTensorFullName *)

(** C5.  [GetTensorFullName] resolves a requested tensor to
    [node_name:slot], followed by [:iteration] only when the iteration string
    is not empty; when [truncate] is set the node name first loses everything
    up to and including its last '/'.  So ("conv/bn/gamma", slot 0, iter 5)
    resolves to "gamma:0:5" with [truncate] and to "conv/bn/gamma:0:5"
    without. *)
Theorem GetTensorFullName_resolution (t : TensorProto)
    (Hsize : Z.of_nat (String.length (node_name t)) < UINT64_MOD) :
  (exists base : string,
      (truncate t = false -> base = node_name t)
      /\ (truncate t = true ->
          (forall pre suf, node_name t = pre +:+ "/" +:+ suf ->
                           char_in "/" suf = false -> base = suf)
          /\ (char_in "/" (node_name t) = false -> base = node_name t))
      /\ (iter t = "" -> GetTensorFullName t = base +:+ ":" +:+ slot t)
      /\ (iter t <> "" ->
          GetTensorFullName t = base +:+ ":" +:+ slot t +:+ ":" +:+ iter t))
  /\ (forall fin content ty ds,
        GetTensorFullName (mkTensorProto "conv/bn/gamma" "0" "5" true fin content ty ds)
        = "gamma:0:5")
  /\ (forall fin content ty ds,
        GetTensorFullName (mkTensorProto "conv/bn/gamma" "0" "5" false fin content ty ds)
        = "conv/bn/gamma:0:5").
Proof.
  split; [| split; intros; reflexivity].
  exists (if truncate t
          then substr (node_name t) (to_uint64 (find_last_of (node_name t) "/" + 1))
          else node_name t).
  split; [| split; [| split]].
  - intros Htr. now rewrite Htr.
  - intros Htr. rewrite Htr. split.
    + intros pre suf Hname Hsuf. rewrite Hname in *.
      now apply (after_last_separator "/").
    + apply (without_separator "/").
  - intros Hiter. unfold GetTensorFullName. rewrite Hiter. cbn [String.eqb].
    destruct (truncate t); f_equal; f_equal;
      ( clear; induction (slot t) as [|a s IH];
        [reflexivity | rewrite append_cons; now rewrite IH] ).
  - intros Hiter. unfold GetTensorFullName.
    destruct (String.eqb_spec (iter t) "") as [E | _]; [contradiction | reflexivity].
Qed.

Lemma GetTensorFullName_resolution_witness :
  exists base : string,
    (forall pre suf, "a/b" = pre +:+ "/" +:+ suf -> char_in "/" suf = false -> base = suf)
    /\ GetTensorFullName (mkTensorProto "a/b" "1" "" true false [] 0 []) = base +:+ ":" +:+ "1".
Proof.
  destruct (GetTensorFullName_resolution (mkTensorProto "a/b" "1" "" true false [] 0 []))
    as [[base (_ & Ht & Hi & _)] _].
  - cbn. unfold UINT64_MOD. lia.
  - exists base. split.
    + apply Ht. reflexivity.
    + apply Hi. reflexivity.
Defined.

(** ** BytestoInt64 *)

Lemma lor_add_disjoint (k a b : Z) :
  0 <= k -> a mod 2 ^ k = 0 -> 0 <= b < 2 ^ k -> Z.lor a b = a + b.
Proof.
  intros Hk Ha Hb.
  assert (Hland : Z.land a b = 0).
  { rewrite <- (Z.mod_small b (2 ^ k)) by assumption.
    rewrite <- (Z.land_ones b k) by assumption.
    rewrite (Z.land_comm b), Z.land_assoc, Z.land_ones, Ha by assumption.
    apply Z.land_0_l. }
  pose proof (Z.add_lor_land a b) as Hadd. rewrite Hland in Hadd. lia.
Qed.

Lemma shl64_small (x n : Z) :
  0 <= n -> 0 <= x -> x * 2 ^ n < UINT64_MOD -> shl64 x n = x * 2 ^ n.
Proof.
  intros Hn Hx Hlt. unfold shl64, to_uint64.
  rewrite Z.shiftl_mul_pow2 by assumption.
  apply Z.mod_small. split; [| assumption].
  apply Z.mul_nonneg_nonneg; [assumption | apply Z.pow_nonneg; lia].
Qed.

(** The sum of eight byte values weighted as a little-endian number is the
    bitwise or of the shifted values. *)
Lemma lor_of_shifted_bytes (v0 v1 v2 v3 v4 v5 v6 v7 : Z) :
  0 <= v0 < 256 -> 0 <= v1 < 256 -> 0 <= v2 < 256 -> 0 <= v3 < 256 ->
  0 <= v4 < 256 -> 0 <= v5 < 256 -> 0 <= v6 < 256 -> 0 <= v7 < 256 ->
  Z.lor (Z.lor (Z.lor (Z.lor (Z.lor (Z.lor (Z.lor
    (shl64 v7 56) (shl64 v6 48)) (shl64 v5 40)) (shl64 v4 32))
    (shl64 v3 24)) (shl64 v2 16)) (shl64 v1 8)) v0
  = v0 + v1 * 2 ^ 8 + v2 * 2 ^ 16 + v3 * 2 ^ 24 + v4 * 2 ^ 32 + v5 * 2 ^ 40
    + v6 * 2 ^ 48 + v7 * 2 ^ 56.
Proof.
  intros H0 H1 H2 H3 H4 H5 H6 H7.
  rewrite !shl64_small by (unfold UINT64_MOD; lia).
  rewrite (lor_add_disjoint 56 (v7 * 2 ^ 56) (v6 * 2 ^ 48));
    [| lia | apply Z.mod_mul; lia | lia].
  rewrite (lor_add_disjoint 48 _ (v5 * 2 ^ 40));
    [| lia | apply Z.mod_divide; [lia | exists (v7 * 2 ^ 8 + v6); ring] | lia].
  rewrite (lor_add_disjoint 40 _ (v4 * 2 ^ 32));
    [| lia
     | apply Z.mod_divide; [lia | exists (v7 * 2 ^ 16 + v6 * 2 ^ 8 + v5); ring]
     | lia].
  rewrite (lor_add_disjoint 32 _ (v3 * 2 ^ 24));
    [| lia
     | apply Z.mod_divide;
       [lia | exists (v7 * 2 ^ 24 + v6 * 2 ^ 16 + v5 * 2 ^ 8 + v4); ring]
     | lia].
  rewrite (lor_add_disjoint 24 _ (v2 * 2 ^ 16));
    [| lia
     | apply Z.mod_divide;
       [lia | exists (v7 * 2 ^ 32 + v6 * 2 ^ 24 + v5 * 2 ^ 16 + v4 * 2 ^ 8 + v3); ring]
     | lia].
  rewrite (lor_add_disjoint 16 _ (v1 * 2 ^ 8));
    [| lia
     | apply Z.mod_divide;
       [lia
       | exists (v7 * 2 ^ 40 + v6 * 2 ^ 32 + v5 * 2 ^ 24 + v4 * 2 ^ 16 + v3 * 2 ^ 8 + v2);
         ring]
     | lia].
  rewrite (lor_add_disjoint 8 _ v0);
    [| lia
     | apply Z.mod_divide;
       [lia
       | exists (v7 * 2 ^ 48 + v6 * 2 ^ 40 + v5 * 2 ^ 32 + v4 * 2 ^ 24 + v3 * 2 ^ 16
                 + v2 * 2 ^ 8 + v1);
         ring]
     | lia].
  ring.
Qed.

Lemma nth_byte_range (buffer : list byte) (i : nat) :
  Forall (fun b => 0 <= b < 256) buffer -> 0 <= nth i buffer 0 < 256.
Proof.
  intros Hall. destruct (Nat.lt_ge_cases i (length buffer)) as [Hi | Hi].
  - rewrite List.Forall_forall in Hall. apply Hall, nth_In, Hi.
  - rewrite nth_overflow by assumption. lia.
Qed.

(** Where plain [char] is unsigned, [BytestoInt64] is the little-endian
    reading of the first eight bytes. *)
Lemma BytestoInt64_unsigned_char `{Host} (buffer : list byte) :
  char_signed = false ->
  Forall (fun b => 0 <= b < 256) buffer ->
  BytestoInt64 buffer = little_endian_value buffer.
Proof.
  intros Hunsigned Hall. unfold BytestoInt64, little_endian_value, char_to_uint64.
  rewrite Hunsigned. cbn [andb].
  pose proof (nth_byte_range buffer 0 Hall). pose proof (nth_byte_range buffer 1 Hall).
  pose proof (nth_byte_range buffer 2 Hall). pose proof (nth_byte_range buffer 3 Hall).
  pose proof (nth_byte_range buffer 4 Hall). pose proof (nth_byte_range buffer 5 Hall).
  pose proof (nth_byte_range buffer 6 Hall). pose proof (nth_byte_range buffer 7 Hall).
  unfold to_uint64. rewrite !Z.mod_small by (unfold UINT64_MOD; lia).
  now apply lor_of_shifted_bytes.
Qed.

(** Where plain [char] is signed, the reading is still right as long as
    none of the first seven bytes has its top bit set. *)
Lemma BytestoInt64_signed_char_low `{Host} (buffer : list byte) :
  char_signed = true ->
  Forall (fun b => 0 <= b < 256) buffer ->
  (forall i, (i < 7)%nat -> nth i buffer 0 < 128) ->
  BytestoInt64 buffer = little_endian_value buffer.
Proof.
  intros Hsigned Hall Hlow. unfold BytestoInt64, little_endian_value, char_to_uint64.
  rewrite Hsigned. cbn [andb].
  pose proof (nth_byte_range buffer 0 Hall). pose proof (nth_byte_range buffer 1 Hall).
  pose proof (nth_byte_range buffer 2 Hall). pose proof (nth_byte_range buffer 3 Hall).
  pose proof (nth_byte_range buffer 4 Hall). pose proof (nth_byte_range buffer 5 Hall).
  pose proof (nth_byte_range buffer 6 Hall). pose proof (nth_byte_range buffer 7 Hall).
  pose proof (Hlow 0%nat ltac:(lia)). pose proof (Hlow 1%nat ltac:(lia)).
  pose proof (Hlow 2%nat ltac:(lia)). pose proof (Hlow 3%nat ltac:(lia)).
  pose proof (Hlow 4%nat ltac:(lia)). pose proof (Hlow 5%nat ltac:(lia)).
  pose proof (Hlow 6%nat ltac:(lia)).
  repeat match goal with
         | |- context [128 <=? nth ?i buffer 0] =>
             lazymatch i with
             | 7%nat => fail
             | _ => destruct (Z.leb_spec 128 (nth i buffer 0)); [lia |]
             end
         end.
  assert (Htop : shl64 (to_uint64 (if 128 <=? nth 7 buffer 0
                                 then nth 7 buffer 0 - 256 else nth 7 buffer 0)) 56
               = shl64 (nth 7 buffer 0) 56).
  { destruct (Z.leb_spec 128 (nth 7 buffer 0)); unfold to_uint64.
    - unfold shl64, to_uint64. rewrite !Z.shiftl_mul_pow2 by lia.
      replace ((nth 7 buffer 0 - 256) mod UINT64_MOD)
        with (nth 7 buffer 0 - 256 + UINT64_MOD).
      + replace ((nth 7 buffer 0 - 256 + UINT64_MOD) * 2 ^ 56)
          with (nth 7 buffer 0 * 2 ^ 56 + (2 ^ 56 - 1) * UINT64_MOD)
          by (unfold UINT64_MOD; ring).
        now rewrite Z.mod_add by (unfold UINT64_MOD; lia).
      + symmetry. rewrite <- (Z.mod_add _ 1) by (unfold UINT64_MOD; lia).
        apply Z.mod_small. unfold UINT64_MOD. lia.
    - rewrite Z.mod_small by (unfold UINT64_MOD; lia). reflexivity. }
  rewrite Htop. unfold to_uint64. rewrite !Z.mod_small by (unfold UINT64_MOD; lia).
  now apply lor_of_shifted_bytes.
Qed.

(** C9.  On an implementation whose plain [char] is signed (x86-64), the
    conversion [(uint64_t)buffer[i]] sign-extends: for the 8-byte buffer
    80 00 00 00 00 00 00 00 [BytestoInt64] answers 2^64 - 128, whereas the
    little-endian value of these bytes is 128. *)
Theorem BytestoInt64_sign_extends `{Host} :
  char_signed = true ->
  BytestoInt64 [128; 0; 0; 0; 0; 0; 0; 0] = 2 ^ 64 - 128
  /\ little_endian_value [128; 0; 0; 0; 0; 0; 0; 0] = 128.
Proof.
  intros Hsigned. unfold BytestoInt64, char_to_uint64. rewrite Hsigned.
  split; reflexivity.
Qed.

Lemma BytestoInt64_sign_extends_witness :
  @BytestoInt64 host_signed_char [128; 0; 0; 0; 0; 0; 0; 0] = 2 ^ 64 - 128
  /\ little_endian_value [128; 0; 0; 0; 0; 0; 0; 0] = 128.
Proof. apply (@BytestoInt64_sign_extends host_signed_char). reflexivity. Defined.

(** ** CheckPort *)

Lemma digit_char_code (c : ascii) : digit_char (char_code c - 48) = c.
Proof.
  unfold digit_char, char_code.
  replace (48 + (Z.of_N (N_of_ascii c) - 48)) with (Z.of_N (N_of_ascii c)) by lia.
  rewrite N2Z.id. apply ascii_N_embedding.
Qed.

Lemma append_empty_r (s : string) : s +:+ "" = s.
Proof.
  induction s as [|a s IH]; [reflexivity |]. rewrite append_cons. now rewrite IH.
Qed.

Lemma append_assoc (s1 s2 s3 : string) : (s1 +:+ s2) +:+ s3 = s1 +:+ (s2 +:+ s3).
Proof.
  induction s1 as [|a s1 IH]; [reflexivity |]. rewrite !append_cons. now rewrite IH.
Qed.

Lemma in_zrange (lo x : Z) (n : nat) :
  lo <= x < lo + Z.of_nat n -> In x (zrange lo n).
Proof.
  revert lo. induction n as [|n IH]; intros lo Hx; [lia |].
  cbn [zrange]. destruct (Z.eq_dec lo x) as [-> | Hne]; [now left | right].
  apply IH. lia.
Qed.

(** Appending a digit to the numeral of [num] gives the numeral of
    [num * 10 + d]; checked for all the numbers [CheckPort] can reach. *)
Lemma to_string_snoc_table :
  forallb (fun num =>
    forallb (fun d =>
      String.eqb (to_string (num * 10 + d))
                 (to_string num +:+ String (digit_char d) ""))
      (zrange 0 10))
    (zrange 1 (Z.to_nat 6553)) = true.
Proof. vm_compute. reflexivity. Qed.

Lemma to_string_snoc (num d : Z) :
  1 <= num -> 0 <= d <= 9 -> num * 10 + d <= 65535 ->
  to_string (num * 10 + d) = to_string num +:+ String (digit_char d) "".
Proof.
  intros Hnum Hd Hle.
  pose proof to_string_snoc_table as Htable.
  rewrite forallb_forall in Htable.
  specialize (Htable num (in_zrange 1 num (Z.to_nat 6553) ltac:(lia))).
  rewrite forallb_forall in Htable.
  specialize (Htable d (in_zrange 0 d 10 ltac:(lia))).
  now apply String.eqb_eq in Htable.
Qed.

Lemma to_string_digit (d : Z) :
  0 <= d <= 9 -> to_string d = String (digit_char d) "".
Proof.
  intros Hd.
  assert (Hcases : d = 0 \/ d = 1 \/ d = 2 \/ d = 3 \/ d = 4 \/ d = 5 \/ d = 6
                   \/ d = 7 \/ d = 8 \/ d = 9) by lia.
  repeat destruct Hcases as [-> | Hcases]; try subst d; reflexivity.
Qed.

(** What [CheckPort_loop] accepts after a prefix whose value is [num]. *)
Lemma CheckPort_loop_accepts (rest : string) (num : Z) :
  1 <= num <= 65535 ->
  CheckPort_loop rest num = true ->
  exists n, 1 <= n <= 65535 /\ to_string num +:+ rest = to_string n.
Proof.
  revert num. induction rest as [|c rest IH]; intros num Hnum Hloop.
  - exists num. now rewrite append_empty_r.
  - cbn [CheckPort_loop] in Hloop.
    destruct (Z.ltb_spec (char_code c) 48); [discriminate |].
    destruct (Z.ltb_spec 57 (char_code c)); [discriminate |]. cbn [orb] in Hloop.
    destruct (Z.ltb_spec (num * 10 + char_code c - 48) 1); [discriminate |].
    destruct (Z.ltb_spec 65535 (num * 10 + char_code c - 48)); [discriminate |].
    cbn [orb] in Hloop.
    destruct (IH (num * 10 + char_code c - 48) ltac:(lia) Hloop) as (n & Hn & Heq).
    exists n. split; [assumption |]. rewrite <- Heq.
    replace (num * 10 + char_code c - 48) with (num * 10 + (char_code c - 48)) by lia.
    rewrite to_string_snoc by lia. rewrite digit_char_code.
    now rewrite append_assoc.
Qed.

Lemma CheckPort_numbers_table :
  forallb (fun n => CheckPort (to_string n)) (zrange 1 (Z.to_nat 65535)) = true.
Proof. vm_compute. reflexivity. Qed.

(** [CheckPort] accepts the numerals of 1 .. 65535 and, besides them, the
    empty string: with no character to look at the loop is never entered. *)
Lemma CheckPort_accepts (port : string) :
  CheckPort port = true <-> port = "" \/ is_port_number port.
Proof.
  split.
  - intros Hcheck. destruct port as [|c rest]; [now left | right].
    assert (Hloop : CheckPort_loop (String c rest) 0 = true).
    { unfold CheckPort in Hcheck.
      destruct c as [[] [] [] [] [] [] [] []]; try exact Hcheck;
        destruct rest; (discriminate || exact Hcheck). }
    cbn [CheckPort_loop] in Hloop.
    destruct (Z.ltb_spec (char_code c) 48); [discriminate |].
    destruct (Z.ltb_spec 57 (char_code c)); [discriminate |]. cbn [orb] in Hloop.
    destruct (Z.ltb_spec (0 * 10 + char_code c - 48) 1); [discriminate |].
    destruct (Z.ltb_spec 65535 (0 * 10 + char_code c - 48)); [discriminate |].
    cbn [orb] in Hloop.
    destruct (CheckPort_loop_accepts rest (0 * 10 + char_code c - 48) ltac:(lia) Hloop)
      as (n & Hn & Heq).
    exists n. split; [assumption |]. rewrite <- Heq.
    replace (0 * 10 + char_code c - 48) with (char_code c - 48) by lia.
    rewrite to_string_digit by lia. now rewrite digit_char_code.
  - intros [-> | (n & Hn & ->)]; [reflexivity |].
    pose proof CheckPort_numbers_table as Htable.
    rewrite forallb_forall in Htable.
    exact (Htable n (in_zrange 1 n (Z.to_nat 65535) ltac:(lia))).
Qed.

Lemma empty_string_is_no_port_number : ~ is_port_number "".
Proof.
  intros (n & Hn & Heq).
  assert (Hlen : forallb (fun n => negb (String.eqb (to_string n) ""))
                         (zrange 1 (Z.to_nat 65535)) = true) by (vm_compute; reflexivity).
  rewrite forallb_forall in Hlen.
  specialize (Hlen n (in_zrange 1 n (Z.to_nat 65535) ltac:(lia))).
  rewrite <- Heq in Hlen. discriminate.
Qed.

(** ** EnableDebugger *)

(** C7.  With the debugger switched on and MS_DEBUGGER_PORT set to the
    empty string, which is not the numeral of a number from 1 to 65535,
    [CheckPort] answers true and [EnableDebugger] leaves remote debugging
    enabled and constructs the gRPC client with an empty port. *)
Theorem EnableDebugger_accepts_empty_port `{Host} (p : Process) :
  ENABLE_D = false ->
  getenv "ENABLE_MS_DEBUGGER" = Some "1" ->
  getenv "MS_DEBUGGER_HOST" = None ->
  getenv "MS_DEBUGGER_PORT" = Some "" ->
  ~ is_port_number ""
  /\ CheckPort "" = true
  /\ exists p', EnableDebugger p = Returned p'
              /\ debugger_enabled_ (dbg p') = true
              /\ grpc_client_ (dbg p') = Some (mkGrpcClient "localhost" "").
Proof.
  intros Hbuild Henable Hhost Hport.
  split; [exact empty_string_is_no_port_number | split; [reflexivity |]].
  unfold EnableDebugger, CheckDebuggerEnabled.
  rewrite Henable, Hhost, Hport, Hbuild. cbn.
  destruct (getenv "MS_DEBUGGER_PARTIAL_MEM") as [str |];
    [destruct (String.eqb str "1") |]; cbn; eexists; repeat split.
Qed.

Lemma EnableDebugger_accepts_empty_port_witness :
  exists p', @EnableDebugger host_empty_port (mkProcess Debugger_new [] []) = Returned p'
             /\ debugger_enabled_ (dbg p') = true
             /\ grpc_client_ (dbg p') = Some (mkGrpcClient "localhost" "").
Proof.
  apply (@EnableDebugger_accepts_empty_port host_empty_port (mkProcess Debugger_new [] []));
    reflexivity.
Defined.

(** ** The record window of CheckOpOverflow *)

Lemma read_record_window_nth (content : list byte) (i : nat) :
  (i < BUF_SIZ)%nat ->
  nth i (read_record_window content) 0 = nth (313 + i) content 0.
Proof.
  intros Hi. unfold read_record_window.
  rewrite !nth_lookup, lookup_take_lt by exact Hi.
  destruct (Nat.lt_ge_cases i (length (drop 313 content))) as [Hin | Hout].
  - rewrite lookup_app_l by exact Hin. now rewrite lookup_drop.
  - rewrite lookup_app_r by exact Hout.
    rewrite lookup_replicate_2 by (unfold BUF_SIZ in *; lia).
    rewrite length_drop in Hout.
    rewrite (proj2 (lookup_ge_None content (313 + i))) by lia. reflexivity.
Qed.

(** [stream_id] is decoded from the bytes at the file offsets 321 .. 328,
    [task_id] from those at 329 .. 336. *)
Lemma record_window_fields (content : list byte) (i : nat) :
  (i < 8)%nat ->
  nth i (drop 8 (read_record_window content)) 0 = nth (321 + i) content 0
  /\ nth i (drop 16 (read_record_window content)) 0 = nth (329 + i) content 0.
Proof.
  intros Hi.
  rewrite (nth_lookup (drop 8 _)), (nth_lookup (drop 16 _)), !lookup_drop, <- !nth_lookup.
  rewrite !read_record_window_nth by (unfold BUF_SIZ; lia).
  split; f_equal; lia.
Qed.

Lemma little_endian_value_ext (b1 b2 : list byte) :
  (forall i, (i < 8)%nat -> nth i b1 0 = nth i b2 0) ->
  little_endian_value b1 = little_endian_value b2.
Proof.
  intros Hext. unfold little_endian_value.
  rewrite !Hext by lia. reflexivity.
Qed.

Lemma read_record_window_bytes (content : list byte) :
  Forall (fun b => 0 <= b < 256) content ->
  Forall (fun b => 0 <= b < 256) (read_record_window content).
Proof.
  intros Hall. unfold read_record_window.
  apply Forall_take, Forall_app. split; [now apply Forall_drop |].
  apply Forall_replicate. lia.
Qed.

(** Where plain [char] is unsigned, the two identifiers that
    [CheckOpOverflow] reads from a record are the little-endian numbers at
    the offsets 321 and 329 of the file. *)
Lemma record_identifiers_little_endian `{Host} (content : list byte) :
  char_signed = false ->
  Forall (fun b => 0 <= b < 256) content ->
  BytestoInt64 (drop 8 (read_record_window content))
  = little_endian_value (drop 321 content)
  /\ BytestoInt64 (drop 16 (read_record_window content))
     = little_endian_value (drop 329 content).
Proof.
  intros Hunsigned Hall.
  pose proof (read_record_window_bytes content Hall) as Hwindow.
  rewrite !BytestoInt64_unsigned_char by (try assumption; now apply Forall_drop).
  split; apply little_endian_value_ext; intros i Hi;
    rewrite (nth_lookup (drop _ content)), lookup_drop, <- nth_lookup;
    now apply record_window_fields.
Qed.

(** ** The regular expression for the host *)

Lemma rmatch_lang (r : regex) (s : string) (k : string -> bool) :
  rmatch r s k = true
  <-> exists s1 s2, s = s1 +:+ s2 /\ lang r s1 /\ k s2 = true.
Proof.
  revert s k. induction r as [c | lo hi | r1 IH1 r2 IH2 | r1 IH1 r2 IH2]; intros s k;
    cbn [rmatch lang].
  - split.
    + destruct s as [|a rest]; [discriminate |]. intros Hm.
      apply andb_true_iff in Hm as [Hac Hk]. apply Ascii.eqb_eq in Hac as ->.
      exists (String c ""), rest. auto.
    + intros (s1 & s2 & -> & -> & Hk). rewrite append_cons, append_empty_l.
      now rewrite Ascii.eqb_refl.
  - split.
    + destruct s as [|a rest]; [discriminate |]. intros Hm.
      apply andb_true_iff in Hm as [Hrange Hk].
      apply andb_true_iff in Hrange as [Hlo Hhi].
      exists (String a ""), rest. split; [reflexivity |]. split; [| exact Hk].
      exists a. split; [reflexivity | lia].
    + intros (s1 & s2 & -> & (a & -> & Hlo & Hhi) & Hk).
      rewrite append_cons, append_empty_l.
      apply andb_true_iff. split; [apply andb_true_iff; split; lia | exact Hk].
  - rewrite IH1. split.
    + intros (s1 & s2 & -> & H1 & H2). apply IH2 in H2 as (s21 & s22 & -> & H2 & Hk).
      exists (s1 +:+ s21), s22. rewrite append_assoc. eauto 8.
    + intros (s1 & s2 & -> & (s11 & s12 & -> & H1 & H2) & Hk).
      exists s11, (s12 +:+ s2). rewrite append_assoc. split; [reflexivity |].
      split; [exact H1 |]. apply IH2. eauto.
  - rewrite orb_true_iff, IH1, IH2. split.
    + intros [(s1 & s2 & ? & ? & ?) | (s1 & s2 & ? & ? & ?)]; eauto 8.
    + intros (s1 & s2 & ? & [? | ?] & ?); eauto 8.
Qed.

(** [regex_match] decides membership in the language. *)
Lemma regex_match_lang (r : regex) (s : string) :
  regex_match s r = true <-> lang r s.
Proof.
  unfold regex_match. rewrite rmatch_lang. split.
  - intros (s1 & s2 & -> & Hlang & Hk). destruct s2; [| discriminate].
    now rewrite append_empty_r.
  - intros Hlang. exists s, "". now rewrite append_empty_r.
Qed.

Lemma to_string_three_digits (d1 d2 d3 : Z) :
  1 <= d1 <= 9 -> 0 <= d2 <= 9 -> 0 <= d3 <= 9 ->
  to_string (d1 * 100 + d2 * 10 + d3)
  = String (digit_char d1) (String (digit_char d2) (String (digit_char d3) "")).
Proof.
  intros H1 H2 H3.
  replace (d1 * 100 + d2 * 10 + d3) with ((d1 * 10 + d2) * 10 + d3) by ring.
  rewrite !to_string_snoc, to_string_digit by lia. reflexivity.
Qed.

Lemma to_string_two_digits (d1 d2 : Z) :
  1 <= d1 <= 9 -> 0 <= d2 <= 9 ->
  to_string (d1 * 10 + d2) = String (digit_char d1) (String (digit_char d2) "").
Proof.
  intros H1 H2. rewrite to_string_snoc, to_string_digit by lia. reflexivity.
Qed.

Lemma octet_three (c1 c2 c3 : ascii) (lo hi : Z) :
  49 <= char_code c1 <= 57 -> 48 <= char_code c2 <= 57 -> 48 <= char_code c3 <= 57 ->
  lo <= (char_code c1 - 48) * 100 + (char_code c2 - 48) * 10 + (char_code c3 - 48) <= hi ->
  exists n, lo <= n <= hi /\ String c1 (String c2 (String c3 "")) = to_string n.
Proof.
  intros H1 H2 H3 Hrange. eexists. split; [exact Hrange |].
  rewrite to_string_three_digits by lia. now rewrite !digit_char_code.
Qed.

Lemma octet_two (c1 c2 : ascii) (lo hi : Z) :
  49 <= char_code c1 <= 57 -> 48 <= char_code c2 <= 57 ->
  lo <= (char_code c1 - 48) * 10 + (char_code c2 - 48) <= hi ->
  exists n, lo <= n <= hi /\ String c1 (String c2 "") = to_string n.
Proof.
  intros H1 H2 Hrange. eexists. split; [exact Hrange |].
  rewrite to_string_two_digits by lia. now rewrite !digit_char_code.
Qed.

Lemma octet_one (c1 : ascii) (lo hi : Z) :
  48 <= char_code c1 <= 57 ->
  lo <= char_code c1 - 48 <= hi ->
  exists n, lo <= n <= hi /\ String c1 "" = to_string n.
Proof.
  intros H1 Hrange. eexists. split; [exact Hrange |].
  rewrite to_string_digit by lia. now rewrite digit_char_code.
Qed.

(** The inner octets of [reg_ip] are the numerals of 0 .. 255. *)
Lemma lang_reg_octet_inner (s : string) :
  lang reg_octet_inner s <-> exists n, 0 <= n <= 255 /\ s = to_string n.
Proof.
  split.
  - unfold reg_octet_inner, digit_0_9, digit_1_9. cbn [lang]. intros Hs.
    octet_digits; rewrite ?append_cons, ?append_empty_l.
    + apply octet_three; literal_codes; lia.
    + apply octet_three; literal_codes; lia.
    + apply octet_three; literal_codes; lia.
    + apply octet_two; literal_codes; lia.
    + apply octet_one; literal_codes; lia.
  - intros (n & Hn & ->). apply regex_match_lang.
    assert (Htable : forallb (fun n => regex_match (to_string n) reg_octet_inner)
                             (zrange 0 256) = true) by (vm_compute; reflexivity).
    rewrite forallb_forall in Htable. apply Htable, in_zrange. lia.
Qed.

(** The outer octets of [reg_ip] are the numerals of 1 .. 254. *)
Lemma lang_reg_octet_outer (s : string) :
  lang reg_octet_outer s <-> exists n, 1 <= n <= 254 /\ s = to_string n.
Proof.
  split.
  - unfold reg_octet_outer, digit_0_9, digit_1_9. cbn [lang]. intros Hs.
    octet_digits; rewrite ?append_cons, ?append_empty_l.
    + apply octet_three; literal_codes; lia.
    + apply octet_three; literal_codes; lia.
    + apply octet_three; literal_codes; lia.
    + apply octet_two; literal_codes; lia.
    + apply octet_one; literal_codes; lia.
  - intros (n & Hn & ->). apply regex_match_lang.
    assert (Htable : forallb (fun n => regex_match (to_string n) reg_octet_outer)
                             (zrange 1 254) = true) by (vm_compute; reflexivity).
    rewrite forallb_forall in Htable. apply Htable, in_zrange. lia.
Qed.

(** What [reg_ip] accepts: dotted quads whose first and last number are
    between 1 and 254 and whose inner numbers are between 0 and 255, all
    without leading zeros. *)
Lemma reg_ip_accepts (s : string) :
  regex_match s reg_ip = true
  <-> exists a b c d,
        1 <= a <= 254 /\ 0 <= b <= 255 /\ 0 <= c <= 255 /\ 1 <= d <= 254
        /\ s = dotted_quad a b c d.
Proof.
  rewrite regex_match_lang. unfold reg_ip, dotted_quad.
  cbn [lang]. split.
  - intros (sa & ? & -> & Ha & ? & ? & -> & -> & sb & ? & -> & Hb
            & ? & ? & -> & -> & sc & ? & -> & Hc & ? & sd & -> & -> & Hd).
    apply lang_reg_octet_outer in Ha as (a & Ha & ->).
    apply lang_reg_octet_inner in Hb as (b & Hb & ->).
    apply lang_reg_octet_inner in Hc as (c & Hc & ->).
    apply lang_reg_octet_outer in Hd as (d & Hd & ->).
    exists a, b, c, d. auto 6.
  - intros (a & b & c & d & Ha & Hb & Hc & Hd & ->).
    exists (to_string a). eexists. split; [reflexivity |].
    split; [apply lang_reg_octet_outer; eauto |].
    exists ".". eexists. split; [reflexivity |]. split; [reflexivity |].
    exists (to_string b). eexists. split; [reflexivity |].
    split; [apply lang_reg_octet_inner; eauto |].
    exists ".". eexists. split; [reflexivity |]. split; [reflexivity |].
    exists (to_string c). eexists. split; [reflexivity |].
    split; [apply lang_reg_octet_inner; eauto |].
    exists ".". eexists. split; [reflexivity |]. split; [reflexivity |].
    apply lang_reg_octet_outer; eauto.
Qed.

(** A host string that is not a dotted quad does not match. *)
Lemma malformed_host_does_not_match (s : string) :
  ~ is_ipv4_dotted_quad s -> regex_match s reg_ip = false.
Proof.
  intros Hmal. destruct (regex_match s reg_ip) eqn:Hm; [| reflexivity].
  exfalso. apply Hmal. apply reg_ip_accepts in Hm as (a & b & c & d & ? & ? & ? & ? & ->).
  exists a, b, c, d. repeat split; try reflexivity; lia.
Qed.

(** ** EnableDebugger with a configuration it rejects *)

(** The rescan of the overflow directory touches the path and the watermark
    only, also when an exception ends it; it is defined when a graph is
    bound. *)
Lemma EnableDebugger_overflow_info_frame `{Host} (d : Debugger) :
  match EnableDebugger_overflow_info d with
  | Returns d' | Throws d' =>
      debugger_enabled_ d' = debugger_enabled_ d /\ grpc_client_ d' = grpc_client_ d
  | UndefinedCall => graph_ptr_ d = None
  end.
Proof.
  unfold EnableDebugger_overflow_info. destruct (graph_ptr_ d) as [g |]; [| reflexivity].
  cbn. destruct (opendir _); [destruct (readdir_loop _ _ _) |]; now destruct d.
Qed.

(** A host string that does not match [reg_ip], or a port string that
    [CheckPort] rejects, leaves remote debugging disabled and no gRPC client
    constructed, whether [EnableDebugger] returns or, in the device build, is
    left by the exception of an unreadable overflow record (in the device
    build a graph has to be bound, as it is when [CheckGraphPtr] calls). *)
Lemma EnableDebugger_rejected_configuration `{Host} (p : Process) :
  ENABLE_D = false \/ graph_ptr_ (dbg p) <> None ->
  (exists host_str, getenv "MS_DEBUGGER_HOST" = Some host_str
                    /\ regex_match host_str reg_ip = false)
  \/ (exists port_str, getenv "MS_DEBUGGER_PORT" = Some port_str
                       /\ CheckPort port_str = false) ->
  exists p', (EnableDebugger p = Returned p'
              \/ ENABLE_D = true /\ EnableDebugger p = Thrown p')
             /\ debugger_enabled_ (dbg p') = false
             /\ grpc_client_ (dbg p') = None.
Proof.
  intros Hbuild Hbad. unfold EnableDebugger.
  set (d0 := set_debugger_enabled_ CheckDebuggerEnabled _).
  destruct (negb (debugger_enabled_ d0) && negb (CheckDebuggerDumpEnabled _)) eqn:Hoff.
  { eexists. split; [left; reflexivity |]. apply andb_true_iff in Hoff as [Hoff _].
    apply negb_true_iff in Hoff. split; [exact Hoff | now destruct (dbg p)]. }
  clear Hoff.
  set (hp := match getenv "MS_DEBUGGER_HOST" with
             | Some host_str =>
                 if regex_match host_str reg_ip then (host_str, d0)
                 else ("", set_debugger_enabled_ false d0)
             | None => ("localhost", d0)
             end).
  assert (Hhost : grpc_client_ hp.2 = None /\ graph_ptr_ hp.2 = graph_ptr_ (dbg p)
                  /\ ((exists host_str, getenv "MS_DEBUGGER_HOST" = Some host_str
                                        /\ regex_match host_str reg_ip = false) ->
                      debugger_enabled_ hp.2 = false)).
  { subst hp d0. destruct (getenv "MS_DEBUGGER_HOST") as [h |];
      [destruct (regex_match h reg_ip) eqn:Hm |]; cbn -[regex_match CheckPort];
      (split; [now destruct (dbg p) | split; [now destruct (dbg p) |]]).
    - intros (h' & [= <-] & Hno). congruence.
    - reflexivity.
    - intros (h' & Hnone & _). discriminate. }
  destruct hp as [host d1]. cbn [fst snd] in Hhost. destruct Hhost as (Hc1 & Hg1 & He1).
  set (pp := match getenv "MS_DEBUGGER_PORT" with
             | Some port_str =>
                 if CheckPort port_str then (port_str, d1)
                 else ("", set_debugger_enabled_ false d1)
             | None => ("50051", d1)
             end).
  assert (Hport : grpc_client_ pp.2 = None /\ graph_ptr_ pp.2 = graph_ptr_ (dbg p)
                  /\ debugger_enabled_ pp.2 = false).
  { subst pp. destruct Hbad as [Hbad | (s & Hs & Hno)].
    - specialize (He1 Hbad).
      destruct (getenv "MS_DEBUGGER_PORT") as [s |]; [destruct (CheckPort s) |]; cbn -[regex_match CheckPort];
        repeat split; try assumption; now destruct d1.
    - rewrite Hs, Hno. cbn -[regex_match CheckPort]. repeat split; now destruct d1. }
  destruct pp as [port d2]. cbn [fst snd] in Hport. destruct Hport as (Hc2 & Hg2 & He2).
  set (d3 := match getenv "MS_DEBUGGER_PARTIAL_MEM" with
             | Some str => if String.eqb str "1" then set_partial_memory_ true d2 else d2
             | None => d2
             end).
  assert (Hmem : grpc_client_ d3 = None /\ graph_ptr_ d3 = graph_ptr_ (dbg p)
                 /\ debugger_enabled_ d3 = false).
  { subst d3. destruct (getenv "MS_DEBUGGER_PARTIAL_MEM") as [str |];
      [destruct (String.eqb str "1") |]; repeat split; try assumption; now destruct d2. }
  destruct Hmem as (Hc3 & Hg3 & He3).
  destruct ENABLE_D eqn:Hd.
  - destruct Hbuild as [? | Hgraph]; [discriminate |].
    pose proof (EnableDebugger_overflow_info_frame d3) as Hframe.
    destruct (EnableDebugger_overflow_info d3) as [d4 | d4 |].
    + destruct Hframe as [He4 Hc4]. rewrite He3 in He4. rewrite Hc3 in Hc4. rewrite He4.
      eexists. split; [left; reflexivity |]. cbn. split; [| exact Hc4]. now destruct d4.
    + destruct Hframe as [He4 Hc4]. rewrite He3 in He4. rewrite Hc3 in Hc4.
      eexists. split; [right; split; reflexivity |]. cbn. split; assumption.
    + rewrite Hg3 in Hframe. contradiction.
  - rewrite He3. eexists. split; [left; reflexivity |]. cbn.
    split; [| exact Hc3]. now destruct d3.
Qed.

(** ** LoadTensors: the chunks of one tensor *)

Lemma add_dims_fold (sh : list Z) (item : TensorProto) :
  fold_left (fun item elem => add_dims elem item) sh item
  = mkTensorProto (node_name item) (slot item) (iter item) (truncate item)
                  (finished item) (tensor_content item) (data_type item)
                  (dims item ++ sh)%list.
Proof.
  revert item. induction sh as [|e sh IH]; intros item; cbn [fold_left].
  - rewrite app_nil_r. now destruct item.
  - rewrite IH. cbn. now rewrite <- app_assoc.
Qed.

(** The chunk at offset [size_iter], field by field. *)
Lemma tensor_chunk_fields `{Host} (tensor : TensorProto) (r : NodeTensor)
    (tensor_size size_iter : Z) :
  tensor_chunk tensor r tensor_size size_iter
  = mkTensorProto (node_name tensor) (slot tensor) (iter tensor) (truncate tensor)
      (tensor_size - size_iter <=? CHUNK_SIZE)
      (take (Z.to_nat (Z.min (tensor_size - size_iter) CHUNK_SIZE))
            (drop (Z.to_nat size_iter) (data_ptr r)))
      (GetDebuggerNumberDataType (dtype r))
      (shape r).
Proof.
  unfold tensor_chunk. rewrite add_dims_fold.
  destruct (Z.leb_spec (tensor_size - size_iter) CHUNK_SIZE);
    [rewrite Z.min_l by lia | rewrite Z.min_r by lia]; reflexivity.
Qed.

Lemma take_add_drop {A} (a b : nat) (l : list A) :
  take (a + b) l = (take a l ++ take b (drop a l))%list.
Proof.
  revert l. induction a as [|a IH]; intros l; [reflexivity |].
  destruct l as [|x l]; cbn; [now destruct b | now rewrite IH].
Qed.

Lemma chunked_transfer_nil `{Host} (tensor : TensorProto) (r : NodeTensor) :
  chunked_transfer tensor r [] [].
Proof.
  unfold chunked_transfer. split; [reflexivity |]. split; [constructor |].
  split; [| constructor]. intros i c Hc. discriminate.
Qed.

(** The loop, for a payload of at most [MAX_CHUNKED_SIZE] bytes and an
    offset that is a multiple of the chunk size: with fuel for the passes
    that remain it returns the chunks of the rest of the payload. *)
Lemma LoadTensors_while_transfer `{Host} (tensor : TensorProto) (r : NodeTensor)
    (tensor_size : Z) (fuel : nat) (k : Z) :
  0 <= k ->
  tensor_size <= MAX_CHUNKED_SIZE ->
  tensor_size - k * CHUNK_SIZE <= Z.of_nat fuel * CHUNK_SIZE ->
  exists l,
    LoadTensors_while fuel tensor r tensor_size (k * CHUNK_SIZE) = Some l
    /\ (k * CHUNK_SIZE < tensor_size -> l <> [])
    /\ chunked_transfer tensor r
         (take (Z.to_nat (tensor_size - k * CHUNK_SIZE))
               (drop (Z.to_nat (k * CHUNK_SIZE)) (data_ptr r))) l.
Proof.
  unfold MAX_CHUNKED_SIZE.
  revert k. induction fuel as [|fuel IH]; intros k Hk Hmax Hfuel.
  - exists []. cbn [LoadTensors_while].
    destruct (Z.ltb_spec (k * CHUNK_SIZE) tensor_size); [unfold CHUNK_SIZE in *; lia |].
    split; [reflexivity | split; [lia |]].
    replace (Z.to_nat (tensor_size - k * CHUNK_SIZE)) with 0%nat by lia.
    apply chunked_transfer_nil.
  - cbn [LoadTensors_while].
    destruct (Z.ltb_spec (k * CHUNK_SIZE) tensor_size) as [Hlt | Hge].
    + destruct (Z.ltb_spec INT_MAX (k * CHUNK_SIZE + CHUNK_SIZE)) as [Hover | _];
        [unfold INT_MAX, CHUNK_SIZE in *; lia |].
      destruct (IH (k + 1)) as (rest & Hrest & Hne & Hcat & Hlen & Hfin & Hmeta);
        [lia | lia | unfold CHUNK_SIZE in *; lia |].
      replace ((k + 1) * CHUNK_SIZE) with (k * CHUNK_SIZE + CHUNK_SIZE) in * by ring.
      rewrite Hrest. cbn.
      eexists. split; [reflexivity |]. split; [discriminate |].
      rewrite tensor_chunk_fields.
      assert (Hpos : 0 <= k * CHUNK_SIZE) by (unfold CHUNK_SIZE; lia).
      split; [| split; [| split]].
      * cbn [map concat tensor_content]. rewrite Hcat.
        destruct (Z.le_gt_cases (tensor_size - k * CHUNK_SIZE) CHUNK_SIZE) as [Hlast | Hmore].
        -- rewrite Z.min_l by lia.
           replace (Z.to_nat (tensor_size - (k * CHUNK_SIZE + CHUNK_SIZE))) with 0%nat by lia.
           cbn [take]. now rewrite app_nil_r.
        -- rewrite Z.min_r by lia.
           replace (Z.to_nat (tensor_size - k * CHUNK_SIZE))
             with (Z.to_nat CHUNK_SIZE
                   + Z.to_nat (tensor_size - (k * CHUNK_SIZE + CHUNK_SIZE)))%nat
             by (unfold CHUNK_SIZE in *; lia).
           rewrite take_add_drop. f_equal. f_equal.
           rewrite drop_drop. f_equal. unfold CHUNK_SIZE in *. lia.
      * constructor; [| exact Hlen]. cbn [tensor_content].
        rewrite length_take. unfold CHUNK_SIZE in *. lia.
      * intros i c Hc. destruct i as [|i]; cbn in Hc.
        -- injection Hc as <-. cbn [finished length].
           destruct (Z.leb_spec (tensor_size - k * CHUNK_SIZE) CHUNK_SIZE) as [Hlast | Hmore].
           ++ destruct rest as [|c' rest']; [tauto |].
              cbn [LoadTensors_while] in Hrest. destruct fuel; cbn in Hrest.
              ** destruct (Z.ltb_spec (k * CHUNK_SIZE + CHUNK_SIZE) tensor_size);
                   [lia | discriminate].
              ** destruct (Z.ltb_spec (k * CHUNK_SIZE + CHUNK_SIZE) tensor_size);
                   [lia | discriminate].
           ++ split; [discriminate |]. intros Hone.
              destruct rest; [| discriminate]. exfalso. apply Hne; [lia | reflexivity].
        -- cbn [length]. rewrite (Hfin i c Hc). lia.
      * constructor; [| exact Hmeta]. cbn. repeat split.
    + exists []. split; [reflexivity | split; [lia |]].
      replace (Z.to_nat (tensor_size - k * CHUNK_SIZE)) with 0%nat by lia.
      apply chunked_transfer_nil.
Qed.

(** Beyond [MAX_CHUNKED_SIZE] the offset runs past [INT_MAX]: the loop has no
    defined outcome. *)
Lemma LoadTensors_while_overflow `{Host} (tensor : TensorProto) (r : NodeTensor)
    (tensor_size : Z) (fuel : nat) (k : Z) :
  0 <= k <= 682 ->
  MAX_CHUNKED_SIZE < tensor_size ->
  LoadTensors_while fuel tensor r tensor_size (k * CHUNK_SIZE) = None.
Proof.
  unfold MAX_CHUNKED_SIZE.
  revert k. induction fuel as [|fuel IH]; intros k Hk Hmax; cbn [LoadTensors_while];
    (destruct (Z.ltb_spec (k * CHUNK_SIZE) tensor_size);
     [| unfold CHUNK_SIZE in *; lia]); [reflexivity |].
  destruct (Z.ltb_spec INT_MAX (k * CHUNK_SIZE + CHUNK_SIZE)) as [_ | Hfits];
    [reflexivity |].
  replace (k * CHUNK_SIZE + CHUNK_SIZE) with ((k + 1) * CHUNK_SIZE) by ring.
  rewrite IH; [reflexivity | | assumption].
  unfold INT_MAX, CHUNK_SIZE in *. lia.
Qed.

(** The four ranges of the payload size [S = data_size r]. *)
Lemma LoadTensors_chunks_positive `{Host} (tensor : TensorProto) (r : NodeTensor) :
  data_size r = Z.of_nat (length (data_ptr r)) ->
  0 < data_size r <= MAX_CHUNKED_SIZE ->
  exists l, LoadTensors_chunks tensor r = Some l
            /\ l <> []
            /\ chunked_transfer tensor r (data_ptr r) l.
Proof.
  intros Hsize Hrange. unfold MAX_CHUNKED_SIZE, CHUNK_SIZE in Hrange.
  unfold LoadTensors_chunks.
  assert (Hint : to_int32 (data_size r) = data_size r).
  { unfold to_int32, UINT32_MOD, INT_MAX. rewrite Z.mod_small by lia.
    destruct (Z.leb_spec (data_size r) (2 ^ 31 - 1)); lia. }
  rewrite Hint.
  destruct (LoadTensors_while_transfer tensor r (data_size r)
              (Z.to_nat (data_size r / CHUNK_SIZE + 1)) 0)
    as (l & Hl & Hne & Htransfer).
  - lia.
  - unfold MAX_CHUNKED_SIZE, CHUNK_SIZE. lia.
  - pose proof (Z.div_mod (data_size r) CHUNK_SIZE ltac:(unfold CHUNK_SIZE; lia)) as Hdm.
    pose proof (Z.mod_pos_bound (data_size r) CHUNK_SIZE ltac:(unfold CHUNK_SIZE; lia)).
    pose proof (Z.div_pos (data_size r) CHUNK_SIZE ltac:(lia) ltac:(unfold CHUNK_SIZE; lia)).
    rewrite Z2Nat.id by lia. lia.
  - exists l. cbn [Z.mul] in *. split; [exact Hl | split; [apply Hne; lia |]].
    rewrite Z.sub_0_r, Hsize, Nat2Z.id in Htransfer. cbn [Z.to_nat drop] in Htransfer.
    now rewrite firstn_all in Htransfer.
Qed.

Lemma LoadTensors_chunks_empty `{Host} (tensor : TensorProto) (r : NodeTensor) :
  data_size r = 0 -> LoadTensors_chunks tensor r = Some [].
Proof. intros Hsize. unfold LoadTensors_chunks. rewrite Hsize. reflexivity. Qed.

Lemma LoadTensors_chunks_undefined `{Host} (tensor : TensorProto) (r : NodeTensor) :
  MAX_CHUNKED_SIZE < data_size r <= INT_MAX ->
  LoadTensors_chunks tensor r = None.
Proof.
  intros Hrange. unfold LoadTensors_chunks.
  assert (Hint : to_int32 (data_size r) = data_size r).
  { unfold MAX_CHUNKED_SIZE, CHUNK_SIZE, INT_MAX in Hrange.
    unfold to_int32, UINT32_MOD, INT_MAX. rewrite Z.mod_small by lia.
    destruct (Z.leb_spec (data_size r) (2 ^ 31 - 1)); lia. }
  rewrite Hint.
  apply (LoadTensors_while_overflow tensor r (data_size r) _ 0); lia.
Qed.

Lemma LoadTensors_chunks_negative `{Host} (tensor : TensorProto) (r : NodeTensor) :
  INT_MAX < data_size r < UINT32_MOD ->
  LoadTensors_chunks tensor r = Some [].
Proof.
  intros Hrange. unfold LoadTensors_chunks.
  assert (Hint : to_int32 (data_size r) < 0).
  { unfold INT_MAX, UINT32_MOD in Hrange.
    unfold to_int32, UINT32_MOD, INT_MAX. rewrite Z.mod_small by lia.
    destruct (Z.leb_spec (data_size r) (2 ^ 31 - 1)); lia. }
  assert (Hdiv : to_int32 (data_size r) / CHUNK_SIZE < 0)
    by (apply Z.div_lt_upper_bound; unfold CHUNK_SIZE; lia).
  replace (Z.to_nat (to_int32 (data_size r) / CHUNK_SIZE + 1)) with 0%nat by lia.
  cbn [LoadTensors_while].
  destruct (Z.ltb_spec 0 (to_int32 (data_size r))); [lia | reflexivity].
Qed.

(** ** LoadTensors: the walk through the request *)

Lemma SearchTensor_name (ds : DebugServices) (name : string) (td : TensorData) :
  SearchTensor ds name = Some td -> td_name td = name.
Proof.
  unfold SearchTensor. intros Hfind. apply find_some in Hfind as [_ Heq].
  now apply String.eqb_eq.
Qed.

(** Whatever [ReadNodesTensors] returns is in the cache under its name. *)
Lemma ReadNodesTensors_found (ds : DebugServices) (name : list string) (r : NodeTensor) :
  In r (ReadNodesTensors ds name) -> SearchTensor ds (ret_name r) <> None.
Proof.
  induction name as [|n name IH]; cbn [ReadNodesTensors]; [contradiction |].
  destruct (SearchTensor ds n) as [td |] eqn:Hn; [| exact IH].
  intros [<- | Hin]; [| now apply IH].
  cbn [NodeTensor_of ret_name]. rewrite (SearchTensor_name _ _ _ Hn), Hn. discriminate.
Qed.

(** [result_index] stays in step with the request: when the results from
    [result_index] on are those of the tensors still to be answered, the loop
    answers each of them from the cache. *)
Lemma LoadTensors_for_in_step `{Host} (ds : DebugServices) (ret : list NodeTensor)
    (tensors : list TensorProto) (result_index : nat) :
  drop result_index ret = ReadNodesTensors ds (map GetTensorFullName tensors) ->
  LoadTensors_for ret tensors result_index = View_answers ds tensors.
Proof.
  revert result_index.
  induction tensors as [|tensor rest IH]; intros result_index Hstep; [reflexivity |].
  cbn [LoadTensors_for View_answers map ReadNodesTensors] in *.
  unfold View_answer.
  assert (Hhead : ret !! result_index = head (drop result_index ret)).
  { rewrite <- (Nat.add_0_r result_index) at 1. rewrite <- lookup_drop.
    now destruct (drop result_index ret). }
  destruct (SearchTensor ds (GetTensorFullName tensor)) as [td |] eqn:Hsearch.
  - rewrite Hhead, Hstep. cbn [head].
    cbn [NodeTensor_of ret_name]. rewrite (SearchTensor_name _ _ _ Hsearch).
    rewrite String.eqb_refl. cbn [negb].
    rewrite (IH (S result_index)).
    + reflexivity.
    + replace (S result_index) with (result_index + 1)%nat by lia.
      rewrite <- drop_drop, Hstep. reflexivity.
  - rewrite (IH result_index Hstep).
    destruct (ret !! result_index) as [r |] eqn:Hr; [| reflexivity].
    destruct (String.eqb_spec (ret_name r) (GetTensorFullName tensor)) as [Heq | _];
      [| reflexivity].
    exfalso. apply (ReadNodesTensors_found ds (map GetTensorFullName rest) r).
    + rewrite <- Hstep.
      destruct (drop result_index ret) as [|r0 tl]; cbn in Hhead; [discriminate |].
      injection Hhead as ->. now left.
    + now rewrite Heq.
Qed.

(** [LoadTensors] answers the requested tensors one by one, in request
    order. *)
Lemma LoadTensors_answers `{Host} (ds : DebugServices) (tensors : list TensorProto) :
  LoadTensors (Some ds) tensors = View_answers ds tensors.
Proof. unfold LoadTensors. cbn. now apply LoadTensors_for_in_step. Qed.

Lemma View_answers_app `{Host} (ds : DebugServices) (front back : list TensorProto) :
  View_answers ds (front ++ back)
  = (a ← View_answers ds front; b ← View_answers ds back; Some (a ++ b)%list).
Proof.
  induction front as [|tensor front IH]; cbn [app View_answers].
  - cbn. now destruct (View_answers ds back).
  - rewrite IH. destruct (View_answer ds tensor) as [h |]; [| reflexivity]. cbn.
    destruct (View_answers ds front) as [a |]; [| reflexivity]. cbn.
    destruct (View_answers ds back) as [b |]; [| reflexivity]. cbn.
    now rewrite app_assoc.
Qed.

(** C1.  A requested tensor that the cache holds with an empty payload gets
    no chunk at all: the body of [while (size_iter < tensor_size)] is never
    entered, so the reply to a View request for this tensor alone is the
    empty list, not one finished chunk. *)
Theorem LoadTensors_empty_payload_no_chunk `{Host} (ds : DebugServices)
    (tensor : TensorProto) (td : TensorData) :
  SearchTensor ds (GetTensorFullName tensor) = Some td ->
  td_data td = [] ->
  LoadTensors (Some ds) [tensor] = Some [].
Proof.
  intros Hfound Hempty. rewrite LoadTensors_answers.
  cbn [View_answers]. unfold View_answer. rewrite Hfound.
  rewrite LoadTensors_chunks_empty; [reflexivity |].
  cbn [NodeTensor_of data_size]. now rewrite Hempty.
Qed.

Lemma LoadTensors_empty_payload_no_chunk_witness :
  @LoadTensors host_signed_char
    (Some (mkDebugServices ∅ [mkTensorData "a" "a:0" [] 0 [0]]))
    [mkTensorProto "a" "0" "" false false [] 0 []]
  = Some [].
Proof.
  apply (@LoadTensors_empty_payload_no_chunk host_signed_char _ _
           (mkTensorData "a" "a:0" [] 0 [0])); reflexivity.
Defined.

(** A found tensor of 1 to [MAX_CHUNKED_SIZE] bytes is transferred as the
    claim describes. *)
Lemma LoadTensors_found_transfer `{Host} (ds : DebugServices)
    (tensor : TensorProto) (td : TensorData) :
  SearchTensor ds (GetTensorFullName tensor) = Some td ->
  0 < Z.of_nat (length (td_data td)) <= MAX_CHUNKED_SIZE ->
  exists l, LoadTensors (Some ds) [tensor] = Some l
            /\ l <> []
            /\ chunked_transfer tensor (NodeTensor_of td) (td_data td) l.
Proof.
  intros Hfound Hrange. rewrite LoadTensors_answers.
  cbn [View_answers]. unfold View_answer. rewrite Hfound.
  assert (Hsize : data_size (NodeTensor_of td) = Z.of_nat (length (td_data td))).
  { cbn [NodeTensor_of data_size]. unfold to_uint32, UINT32_MOD.
    unfold MAX_CHUNKED_SIZE, CHUNK_SIZE in Hrange. apply Z.mod_small. lia. }
  destruct (LoadTensors_chunks_positive tensor (NodeTensor_of td)) as (l & Hl & Hne & Ht).
  - exact Hsize.
  - now rewrite Hsize.
  - exists l. rewrite Hl. cbn. rewrite app_nil_r. auto.
Qed.

(** C6.  A requested tensor that the cache does not hold is answered with
    exactly one placeholder, marked finished, that names the request (node
    name, slot, iteration, truncate flag) and has content, data type and
    dimensions cleared; the tensors requested before and after it are
    answered as they would be on their own, in request order. *)
Theorem LoadTensors_placeholder `{Host} (ds : DebugServices)
    (front back : list TensorProto) (tensor : TensorProto) :
  SearchTensor ds (GetTensorFullName tensor) = None ->
  LoadTensors (Some ds) (front ++ tensor :: back)
  = (a ← LoadTensors (Some ds) front;
     b ← LoadTensors (Some ds) back;
     Some (a ++ empty_tensor_item tensor :: b)%list)
  /\ empty_tensor_item tensor
     = mkTensorProto (node_name tensor) (slot tensor) (iter tensor) (truncate tensor)
                     true [] 0 [].
Proof.
  intros Hmiss. split; [| reflexivity].
  rewrite !LoadTensors_answers, View_answers_app.
  cbn [View_answers]. unfold View_answer at 1. rewrite Hmiss. cbn.
  destruct (View_answers ds front) as [a |]; [| reflexivity]. cbn.
  destruct (View_answers ds back) as [b |]; reflexivity.
Qed.

Lemma LoadTensors_placeholder_witness :
  @LoadTensors host_signed_char
    (Some (mkDebugServices ∅ [mkTensorData "a" "a:0" [7; 8] 1 [2]]))
    ([mkTensorProto "a" "0" "" false false [] 0 []]
       ++ mkTensorProto "s/b" "1" "3" true false [] 0 []
       :: [mkTensorProto "a" "0" "" false false [] 0 []])
  = Some [mkTensorProto "a" "0" "" false true [7; 8] 1 [2];
          mkTensorProto "s/b" "1" "3" true true [] 0 [];
          mkTensorProto "a" "0" "" false true [7; 8] 1 [2]].
Proof.
  destruct (@LoadTensors_placeholder host_signed_char
              (mkDebugServices ∅ [mkTensorData "a" "a:0" [7; 8] 1 [2]])
              [mkTensorProto "a" "0" "" false false [] 0 []]
              [mkTensorProto "a" "0" "" false false [] 0 []]
              (mkTensorProto "s/b" "1" "3" true false [] 0 []))
    as [Hreply _]; [reflexivity |].
  rewrite Hreply. reflexivity.
Defined.

(** ** CommandLoop *)

(** A run of failed waits that stays within the budget: each failure is
    followed by a sleep of [1000 * num_wait_fail] milliseconds, where
    [num_wait_fail] counts the failures since the loop was entered. *)
Lemma CommandLoop_while_failures `{Host} (fails rest : list EventReply)
    (metadata : Metadata) (num_wait_fail : Z) (d : Debugger) (client : GrpcClient)
    (tr : list Event) :
  grpc_client_ d = Some client ->
  Forall (fun reply => status_OK reply = false) fails ->
  num_wait_fail + Z.of_nat (length fails) <= max_num_wait_fail ->
  CommandLoop_while (fails ++ rest) metadata num_wait_fail d tr
  = CommandLoop_while rest metadata (num_wait_fail + Z.of_nat (length fails)) d
      (tr ++ flat_map (fun i => [EvWaitForCommand client metadata; EvSleep (1000 * i)])
                      (zrange (num_wait_fail + 1) (length fails))).
Proof.
  intros Hclient Hfails. revert num_wait_fail tr.
  induction Hfails as [|reply fails Hreply _ IH]; intros num_wait_fail tr Hbudget.
  - cbn. rewrite app_nil_r. f_equal. lia.
  - cbn [app length] in *. cbn [CommandLoop_while]. rewrite Hclient, Hreply. cbn [negb].
    destruct (Z.ltb_spec max_num_wait_fail (num_wait_fail + 1)) as [Hover | _]; [lia |].
    rewrite IH by lia. cbn [zrange flat_map]. rewrite <- !app_assoc. cbn [app].
    f_equal. lia.
Qed.

(** A failed wait that exceeds the budget ends the process. *)
Lemma CommandLoop_while_budget_exceeded `{Host} (reply : EventReply)
    (rest : list EventReply) (metadata : Metadata) (num_wait_fail : Z) (d : Debugger)
    (client : GrpcClient) (tr : list Event) :
  grpc_client_ d = Some client ->
  status_OK reply = false ->
  max_num_wait_fail <= num_wait_fail ->
  CommandLoop_while (reply :: rest) metadata num_wait_fail d tr
  = Exited (tr ++ [EvWaitForCommand client metadata; EvClearResAtexit; EvExit EXIT_FAILURE]).
Proof.
  intros Hclient Hreply Hbudget. cbn [CommandLoop_while]. rewrite Hclient, Hreply.
  cbn [negb]. destruct (Z.ltb_spec max_num_wait_fail (num_wait_fail + 1)); [| lia].
  unfold Exit. cbn [trace]. now rewrite <- app_assoc.
Qed.

(** Six failed waits in a row, right after the loop is entered: five
    retries after 1 s, 2 s, 3 s, 4 s and 5 s, then the resources are released
    and the process exits. *)
Lemma CommandLoop_six_failures_on_entry `{Host} (p : Process)
    (client : GrpcClient) (metadata : Metadata) (fails rest : list EventReply) :
  prepare_metadata (dbg p) = Some metadata ->
  grpc_client_ (dbg p) = Some client ->
  length fails = 6%nat ->
  Forall (fun reply => status_OK reply = false) fails ->
  inbox p = (fails ++ rest)%list ->
  CommandLoop p
  = Exited (trace p ++
            [EvWaitForCommand client metadata; EvSleep 1000;
             EvWaitForCommand client metadata; EvSleep 2000;
             EvWaitForCommand client metadata; EvSleep 3000;
             EvWaitForCommand client metadata; EvSleep 4000;
             EvWaitForCommand client metadata; EvSleep 5000;
             EvWaitForCommand client metadata; EvClearResAtexit; EvExit EXIT_FAILURE]).
Proof.
  intros Hmeta Hclient Hlen Hfails Hinbox. unfold CommandLoop. rewrite Hmeta, Hinbox.
  do 6 (destruct fails as [|? fails]; [discriminate |]).
  destruct fails; [| discriminate].
  repeat match goal with
         | Hall : Forall _ (_ :: _) |- _ => inversion Hall; subst; clear Hall
         end.
  match goal with
  | |- CommandLoop_while ([?f1; ?f2; ?f3; ?f4; ?f5; ?f6] ++ rest) _ _ _ _ = _ =>
      change ([f1; f2; f3; f4; f5; f6] ++ rest)%list
        with ([f1; f2; f3; f4; f5] ++ (f6 :: rest))%list
  end.
  rewrite (CommandLoop_while_failures _ _ _ _ _ client) by
    (try assumption; try (repeat constructor; assumption); cbn; unfold max_num_wait_fail; lia).
  rewrite (CommandLoop_while_budget_exceeded _ _ _ _ _ client) by
    (try assumption; cbn; unfold max_num_wait_fail; lia).
  cbn. now rewrite <- app_assoc.
Qed.

(** C2.  [num_wait_fail] is never set back when a wait succeeds, so the
    backoff and the budget follow the number of failures since the loop was
    entered, not the length of the current run of failures.  After one
    failure and one successful reply, the next failure (the first of its run)
    is followed by a sleep of 2 s; and a run of five failures that follows
    ends the process at its fifth failure, after four retries. *)
Theorem CommandLoop_failures_are_not_consecutive `{Host} (p : Process)
    (client : GrpcClient) (metadata : Metadata) :
  prepare_metadata (dbg p) = Some metadata ->
  grpc_client_ (dbg p) = Some client ->
  let fail := mkEventReply false CMD_NOT_SET in
  let unknown := mkEventReply true CMD_NOT_SET in
  let wait := EvWaitForCommand client metadata in
  CommandLoop (mkProcess (dbg p) [fail; unknown; fail; mkEventReply true (RunCmd "step" "")]
                         (trace p))
  = Returned (mkProcess (set_node_name_ "" (set_run_level_ "step" (dbg p))) []
                (trace p ++ [wait; EvSleep 1000; wait; wait; EvSleep 2000; wait]))
  /\ CommandLoop (mkProcess (dbg p) [fail; unknown; fail; fail; fail; fail; fail] (trace p))
     = Exited (trace p ++ [wait; EvSleep 1000; wait;
                           wait; EvSleep 2000; wait; EvSleep 3000; wait; EvSleep 4000;
                           wait; EvSleep 5000; wait; EvClearResAtexit; EvExit EXIT_FAILURE]).
Proof.
  intros Hmeta Hclient fail unknown wait. unfold CommandLoop. cbn [dbg inbox trace].
  rewrite Hmeta. destruct p as [d box tr]. cbn [dbg trace] in *.
  destruct d. cbn in Hclient. subst.
  split; cbn; unfold max_num_wait_fail, Exit; cbn; rewrite <- !app_assoc; reflexivity.
Qed.

Lemma CommandLoop_failures_are_not_consecutive_witness :
  let p := mkProcess
             (set_grpc_client_ (Some (mkGrpcClient "localhost" "50051"))
                (set_graph_ptr_ (Some (mkKernelGraph 1 0 [] [])) Debugger_new)) [] [] in
  let client := mkGrpcClient "localhost" "50051" in
  let metadata := mkMetadata "0:0" 0 "" "" false in
  let fail := mkEventReply false CMD_NOT_SET in
  let unknown := mkEventReply true CMD_NOT_SET in
  let wait := EvWaitForCommand client metadata in
  @CommandLoop host_signed_char
     (mkProcess (dbg p) [fail; unknown; fail; mkEventReply true (RunCmd "step" "")] [])
  = Returned (mkProcess (set_node_name_ "" (set_run_level_ "step" (dbg p))) []
                [wait; EvSleep 1000; wait; wait; EvSleep 2000; wait]).
Proof.
  intros p client metadata fail unknown wait.
  apply (@CommandLoop_failures_are_not_consecutive host_signed_char p client metadata);
    reflexivity.
Defined.

(** ** Comparison of time stamps *)

(** The test of the scans, [!(t <= w)], in terms of [>]: it also holds when
    [t] or [w] is NaN. *)
Lemma double_le_negb (t w : double) :
  negb (double_le t w) = double_gt t w || (is_nan t || is_nan w).
Proof. destruct t, w; cbn; try reflexivity; now rewrite orb_false_r. Qed.

Lemma double_gt_negb (a b : double) :
  is_nan a = false -> is_nan b = false -> double_gt a b = negb (double_le a b).
Proof. now destruct a, b. Qed.

Lemma double_gt_nan (a b : double) : double_gt a b = true -> is_nan a = false.
Proof. now destruct a, b. Qed.

Lemma double_gt_unordered (a b : double) :
  is_nan a = true \/ is_nan b = true -> double_gt a b = false.
Proof. destruct a, b; cbn; intros [? | ?]; congruence. Qed.

Lemma double_le_refl (a : double) : is_nan a = false -> double_le a a = true.
Proof.
  destruct a; cbn; try easy. intros _. apply Qle_bool_iff, Qle_refl.
Qed.

Lemma double_le_trans (a b c : double) :
  double_le a b = true -> double_le b c = true -> double_le a c = true.
Proof.
  destruct a, b, c; cbn; try easy.
  rewrite !Qle_bool_iff. apply Qle_trans.
Qed.

Lemma double_le_total (a b : double) :
  is_nan a = false -> is_nan b = false -> double_le a b = false -> double_le b a = true.
Proof.
  destruct a as [x | | |], b as [y | | |]; cbn; try easy.
  intros _ _ Hle. apply Qle_bool_iff, Qlt_le_weak, Qnot_le_lt.
  intros Hxy. apply Qle_bool_iff in Hxy. congruence.
Qed.

(** ** The watermark after a scan *)

Lemma raise_watermark_cons (w i : double) (bin_list : list double) :
  raise_watermark w (i :: bin_list)
  = raise_watermark (if double_gt i w then i else w) bin_list.
Proof. reflexivity. Qed.

Lemma raise_watermark_attained (bin_list : list double) (w : double) :
  raise_watermark w bin_list = w \/ In (raise_watermark w bin_list) bin_list.
Proof.
  revert w. induction bin_list as [|i bin_list IH]; intros w; [now left |].
  rewrite raise_watermark_cons.
  destruct (IH (if double_gt i w then i else w)) as [-> | Hin].
  - destruct (double_gt i w); [right; now left | now left].
  - right. now right.
Qed.

(** A NaN watermark stays, and no scan makes the watermark NaN. *)
Lemma raise_watermark_nan (bin_list : list double) (w : double) :
  is_nan (raise_watermark w bin_list) = is_nan w.
Proof.
  revert w. induction bin_list as [|i bin_list IH]; intros w; [reflexivity |].
  rewrite raise_watermark_cons, IH.
  destruct (double_gt i w) eqn:Hgt; [| reflexivity].
  rewrite (double_gt_nan _ _ Hgt). now destruct i, w.
Qed.

Lemma raise_watermark_step_ge (w i : double) :
  is_nan w = false -> double_le w (if double_gt i w then i else w) = true.
Proof.
  intros Hw. destruct (double_gt i w) eqn:Hgt; [| now apply double_le_refl].
  apply double_le_total; [exact (double_gt_nan _ _ Hgt) | exact Hw |].
  rewrite double_gt_negb in Hgt by (try assumption; exact (double_gt_nan _ _ Hgt)).
  now apply negb_true_iff.
Qed.

Lemma raise_watermark_ge (bin_list : list double) (w : double) :
  is_nan w = false -> double_le w (raise_watermark w bin_list) = true.
Proof.
  revert w. induction bin_list as [|i bin_list IH]; intros w Hw;
    [now apply double_le_refl |].
  rewrite raise_watermark_cons.
  eapply double_le_trans; [apply (raise_watermark_step_ge w i Hw) | apply IH].
  destruct (double_gt i w) eqn:Hgt; [exact (double_gt_nan _ _ Hgt) | exact Hw].
Qed.

Lemma raise_watermark_upper (bin_list : list double) (w : double) :
  is_nan w = false ->
  Forall (fun t => is_nan t = true \/ double_le t (raise_watermark w bin_list) = true)
         bin_list.
Proof.
  revert w. induction bin_list as [|i bin_list IH]; intros w Hw; constructor.
  - rewrite raise_watermark_cons.
    destruct (is_nan i) eqn:Hi; [now left | right].
    destruct (double_gt i w) eqn:Hgt.
    + now apply raise_watermark_ge.
    + eapply double_le_trans; [| now apply raise_watermark_ge].
      rewrite double_gt_negb in Hgt by assumption. now apply negb_false_iff.
  - rewrite raise_watermark_cons. apply IH.
    destruct (double_gt i w) eqn:Hgt; [exact (double_gt_nan _ _ Hgt) | exact Hw].
Qed.

(** Whatever the time stamps: none of them, and not the prior watermark, is
    greater than the watermark after the scan. *)
Lemma raise_watermark_not_exceeded (bin_list : list double) (w : double) :
  double_gt w (raise_watermark w bin_list) = false
  /\ Forall (fun t => double_gt t (raise_watermark w bin_list) = false) bin_list.
Proof.
  pose proof (raise_watermark_nan bin_list w) as Hnan.
  destruct (is_nan w) eqn:Hw.
  - split; [apply double_gt_unordered; now left |].
    apply List.Forall_forall. intros t _. apply double_gt_unordered. now right.
  - split.
    + rewrite double_gt_negb by assumption. now rewrite raise_watermark_ge.
    + eapply List.Forall_impl; [| apply (raise_watermark_upper bin_list w Hw)].
      intros t [Ht | Ht]; [apply double_gt_unordered; now left |].
      destruct (is_nan t) eqn:Hnt; [apply double_gt_unordered; now left |].
      rewrite double_gt_negb by assumption. now rewrite Ht.
Qed.

(** ** The scan of CheckOpOverflow *)

Lemma omap_cons {A B} (f : A -> option B) (x : A) (l : list A) :
  omap f (x :: l) = (option_list (f x) ++ omap f l)%list.
Proof. cbn. now destruct (f x). Qed.

(** One pass of the [readdir] loop of [CheckOpOverflow]: it throws at an
    unreadable record, and takes up a record whose time stamp is greater
    than the watermark or not ordered with it. *)
Lemma CheckOpOverflow_entry_step `{Host} (d : Debugger) (dir : dirent)
    (bin_list : list double) (op_names : list string) :
  CheckOpOverflow_entry d (bin_list, op_names) dir
  = if is_unreadable dir then None
    else if is_new_record (last_overflow_bin_ d) dir
            || is_unordered_record (last_overflow_bin_ d) dir
    then Some ((bin_list ++ option_list (record_time (d_name dir)))%list,
               (op_names ++ option_list (overflowed_op d dir))%list)
    else Some (bin_list, op_names).
Proof.
  unfold CheckOpOverflow_entry, is_unreadable, is_unreadable_name, is_new_record,
    is_unordered_record, record_time, suffix, overflowed_op.
  destruct (d_is_reg dir); cbn [andb]; [| reflexivity].
  destruct (find_last_of (d_name dir) "." =? npos) eqn:Hdot; [reflexivity |].
  cbn [mbind option_bind].
  destruct (stod _) as [time |]; [| reflexivity]. cbn [mbind option_bind].
  rewrite <- double_le_negb.
  destruct (double_le time (last_overflow_bin_ d)); cbn [negb]; [reflexivity |].
  destruct (open_file (overflow_bin_path_ d +:+ d_name dir)) as [content |]; cbn.
  - destruct (stream_task_to_opname_ d !! _); cbn; now rewrite ?app_nil_r.
  - now rewrite app_nil_r.
Qed.

(** With readable records only, the loop of [CheckOpOverflow] is a filter:
    it collects the time stamps of the records it takes up, and the
    operations that these records name. *)
Lemma CheckOpOverflow_scan `{Host} (d : Debugger) (entries : list dirent)
    (bin_list : list double) (op_names : list string) :
  existsb is_unreadable entries = false ->
  let taken dir := is_new_record (last_overflow_bin_ d) dir
                   || is_unordered_record (last_overflow_bin_ d) dir in
  readdir_loop (CheckOpOverflow_entry d) entries (bin_list, op_names)
  = Finished
      ((bin_list ++ omap (fun dir => record_time (d_name dir)) (List.filter taken entries))%list,
       (op_names ++ omap (overflowed_op d) (List.filter taken entries))%list).
Proof.
  intros Hread taken. revert bin_list op_names Hread.
  induction entries as [|dir entries IH]; intros bin_list op_names Hread;
    cbn [readdir_loop List.filter].
  - cbn. now rewrite !app_nil_r.
  - cbn [existsb] in Hread. apply orb_false_iff in Hread as [Hdir Hread].
    rewrite CheckOpOverflow_entry_step, Hdir. fold (taken dir).
    destruct (taken dir); rewrite IH by assumption; [| reflexivity].
    now rewrite !omap_cons, <- !app_assoc.
Qed.

(** An unreadable record ends the loop by its exception. *)
Lemma CheckOpOverflow_scan_throws `{Host} (d : Debugger) (entries : list dirent)
    (acc : list double * list string) :
  existsb is_unreadable entries = true ->
  exists acc', readdir_loop (CheckOpOverflow_entry d) entries acc = Interrupted acc'.
Proof.
  revert acc. induction entries as [|dir entries IH]; intros [bin_list op_names] Hbad;
    [discriminate |].
  cbn [readdir_loop]. rewrite CheckOpOverflow_entry_step.
  cbn [existsb] in Hbad. destruct (is_unreadable dir); [eauto |]. cbn [orb] in Hbad.
  destruct (is_new_record _ dir || is_unordered_record _ dir); now apply IH.
Qed.


(** ** The rescan of EnableDebugger *)

(** One pass of the [readdir] loop of [EnableDebugger]: it throws at a file
    whose path has a suffix that does not convert, and it takes over the time
    stamp of a regular file unless that is at most the watermark so far. *)
Lemma EnableDebugger_entry_step `{Host} (path : string) (last : double) (dir : dirent) :
  EnableDebugger_entry path last dir
  = if is_unreadable_at path dir then None
    else Some (fold_left (fun last t => if double_le t last then last else t)
                         (rescan_times path [dir]) last).
Proof.
  unfold EnableDebugger_entry, is_unreadable_at, is_unreadable_name, rescan_times,
    record_time, suffix.
  cbn [List.filter]. destruct (d_is_reg dir); cbn [andb]; [| reflexivity].
  rewrite omap_cons. cbn [omap app].
  destruct (find_last_of (path +:+ d_name dir) "." =? npos) eqn:Hdot; [reflexivity |].
  cbn [mbind option_bind].
  destruct (stod _) as [time |]; [| reflexivity]. cbn.
  now destruct (double_le time last).
Qed.

Lemma rescan_times_cons `{Host} (path : string) (dir : dirent) (entries : list dirent) :
  rescan_times path (dir :: entries)
  = (rescan_times path [dir] ++ rescan_times path entries)%list.
Proof.
  unfold rescan_times. cbn [List.filter].
  destruct (d_is_reg dir); [| reflexivity]. rewrite !omap_cons. cbn [omap].
  now rewrite app_nil_r.
Qed.

(** With readable paths only, the loop of [EnableDebugger] folds the time
    stamps of the regular files into the watermark. *)
Lemma EnableDebugger_rescan `{Host} (path : string) (entries : list dirent) (last : double) :
  existsb (is_unreadable_at path) entries = false ->
  readdir_loop (EnableDebugger_entry path) entries last
  = Finished (fold_left (fun last t => if double_le t last then last else t)
                        (rescan_times path entries) last).
Proof.
  revert last. induction entries as [|dir entries IH]; intros last Hread; [reflexivity |].
  cbn [existsb] in Hread. apply orb_false_iff in Hread as [Hdir Hread].
  cbn [readdir_loop]. rewrite EnableDebugger_entry_step, Hdir, IH by assumption.
  now rewrite (rescan_times_cons path dir entries), fold_left_app.
Qed.

(** An unreadable path ends the loop by its exception. *)
Lemma EnableDebugger_rescan_throws `{Host} (path : string) (entries : list dirent)
    (last : double) :
  existsb (is_unreadable_at path) entries = true ->
  exists last', readdir_loop (EnableDebugger_entry path) entries last = Interrupted last'.
Proof.
  revert last. induction entries as [|dir entries IH]; intros last Hbad; [discriminate |].
  cbn [readdir_loop]. rewrite EnableDebugger_entry_step.
  cbn [existsb] in Hbad. destruct (is_unreadable_at path dir); [eauto |]. now apply IH.
Qed.

(** Without NaN the rescan ends at the largest of the watermark it started
    from and the time stamps it saw. *)
Lemma rescan_maximum (times : list double) (last : double) :
  is_nan last = false ->
  Forall (fun t => is_nan t = false) times ->
  let w := fold_left (fun last t => if double_le t last then last else t) times last in
  (w = last \/ In w times)
  /\ double_le last w = true
  /\ Forall (fun t => double_le t w = true) times.
Proof.
  revert last. induction times as [|t times IH]; intros last Hlast Htimes; cbn [fold_left].
  - split; [now left |]. split; [now apply double_le_refl | constructor].
  - inversion Htimes as [| ? ? Ht Hrest]; subst.
    assert (Hnext : is_nan (if double_le t last then last else t) = false)
      by now destruct (double_le t last).
    destruct (IH _ Hnext Hrest) as (Hin & Hge & Hupper).
    split; [| split].
    + destruct Hin as [-> | Hin]; [| right; now right].
      destruct (double_le t last); [now left | right; now left].
    + eapply double_le_trans; [| exact Hge].
      destruct (double_le t last) eqn:Hle; [now apply double_le_refl |].
      now apply double_le_total.
    + constructor; [| exact Hupper].
      eapply double_le_trans; [| exact Hge].
      destruct (double_le t last) eqn:Hle; [exact Hle | now apply double_le_refl].
Qed.

(** The rescan forgets the watermark that it finds. *)
Lemma EnableDebugger_overflow_info_forgets `{Host} (d : Debugger) (w : double) :
  EnableDebugger_overflow_info (set_last_overflow_bin_ w d) = EnableDebugger_overflow_info d.
Proof. now destruct d. Qed.


(** What the rescan gives in the directory of the bound graph; [found] are
    the entries of the directory, none if it cannot be opened. *)
Lemma EnableDebugger_overflow_info_rescan `{Host} (d : Debugger) (g : KernelGraph) :
  graph_ptr_ d = Some g ->
  let path := GetOpOverflowBinPath (graph_id g) (device_id_ d) in
  let found := default [] (opendir path) in
  let bound := set_overflow_bin_path_ path d in
  (existsb (is_unreadable_at path) found = true ->
   exists w', EnableDebugger_overflow_info d = Throws (set_last_overflow_bin_ w' bound))
  /\ (existsb (is_unreadable_at path) found = false ->
      exists w',
        EnableDebugger_overflow_info d = Returns (set_last_overflow_bin_ w' bound)
        /\ (Forall (fun t => is_nan t = false) (rescan_times path found) ->
            (w' = Finite 0 \/ In w' (rescan_times path found))
            /\ double_le (Finite 0) w' = true
            /\ Forall (fun t => double_le t w' = true) (rescan_times path found))).
Proof.
  intros Hg path found bound. unfold EnableDebugger_overflow_info. rewrite Hg.
  assert (Hpath : overflow_bin_path_ (set_last_overflow_bin_ (Finite 0) bound) = path)
    by reflexivity.
  assert (Hset : forall w', set_last_overflow_bin_ w' (set_last_overflow_bin_ (Finite 0) bound)
                            = set_last_overflow_bin_ w' bound) by reflexivity.
  cbn zeta. fold path. fold bound. rewrite Hpath. subst found.
  destruct (opendir path) as [found |]; cbn [default].
  - split.
    + intros Hbad.
      destruct (EnableDebugger_rescan_throws path found
                  (last_overflow_bin_ (set_last_overflow_bin_ (Finite 0) bound)) Hbad)
        as [w' ->].
      exists w'. now rewrite Hset.
    + intros Hread. rewrite (EnableDebugger_rescan path found _ Hread).
      eexists. split; [now rewrite Hset |].
      intros Htimes. now apply rescan_maximum.
  - split; [discriminate |]. intros _. exists (Finite 0). split; [reflexivity |].
    intros _. split; [now left |]. split; [reflexivity | constructor].
Qed.

(** In the device build [EnableDebugger], once the debugger or the dump is
    switched on, ends as the rescan of the overflow directory does, and with
    the path and the watermark that the rescan leaves. *)
Lemma EnableDebugger_rescans `{Host} (p : Process) :
  ENABLE_D = true ->
  CheckDebuggerEnabled || CheckDebuggerDumpEnabled (dbg p) = true ->
  exists d3,
    graph_ptr_ d3 = graph_ptr_ (dbg p)
    /\ device_id_ d3 = device_id_ (dbg p)
    /\ match EnableDebugger_overflow_info d3 with
       | Returns d' =>
           exists p', EnableDebugger p = Returned p'
                      /\ last_overflow_bin_ (dbg p') = last_overflow_bin_ d'
                      /\ overflow_bin_path_ (dbg p') = overflow_bin_path_ d'
       | Throws d' =>
           exists p', EnableDebugger p = Thrown p'
                      /\ last_overflow_bin_ (dbg p') = last_overflow_bin_ d'
                      /\ overflow_bin_path_ (dbg p') = overflow_bin_path_ d'
       | UndefinedCall => EnableDebugger p = Undefined
       end.
Proof.
  intros Hbuild Hon. unfold EnableDebugger. rewrite Hbuild.
  set (d0 := set_debugger_enabled_ CheckDebuggerEnabled _).
  assert (Hoff : negb (debugger_enabled_ d0) && negb (CheckDebuggerDumpEnabled
                   (set_debug_services_ None
                      (set_grpc_client_ None
                         (set_partial_memory_ false
                            (set_debugger_enabled_ false (set_num_step_ 0 (dbg p)))))))
                 = false).
  { subst d0. rewrite <- negb_orb.
    replace (_ || _) with (CheckDebuggerEnabled || CheckDebuggerDumpEnabled (dbg p));
      [now rewrite Hon | now destruct (dbg p)]. }
  rewrite Hoff. clear Hoff.
  assert (Hd0 : graph_ptr_ d0 = graph_ptr_ (dbg p) /\ device_id_ d0 = device_id_ (dbg p))
    by (subst d0; now destruct (dbg p)).
  clearbody d0.
  set (hp := match getenv "MS_DEBUGGER_HOST" with
             | Some host_str =>
                 if regex_match host_str reg_ip then (host_str, d0)
                 else ("", set_debugger_enabled_ false d0)
             | None => ("localhost", d0)
             end).
  assert (Hhp : graph_ptr_ hp.2 = graph_ptr_ (dbg p) /\ device_id_ hp.2 = device_id_ (dbg p)).
  { subst hp. destruct (getenv "MS_DEBUGGER_HOST") as [h |];
      [destruct (regex_match h reg_ip) |]; cbn -[regex_match];
      first [assumption | now destruct d0]. }
  destruct hp as [host d1]. cbn [snd] in Hhp. clear Hd0.
  set (pp := match getenv "MS_DEBUGGER_PORT" with
             | Some port_str =>
                 if CheckPort port_str then (port_str, d1)
                 else ("", set_debugger_enabled_ false d1)
             | None => ("50051", d1)
             end).
  assert (Hpp : graph_ptr_ pp.2 = graph_ptr_ (dbg p) /\ device_id_ pp.2 = device_id_ (dbg p)).
  { subst pp. destruct (getenv "MS_DEBUGGER_PORT") as [s |];
      [destruct (CheckPort s) |]; cbn -[CheckPort];
      first [assumption | now destruct d1]. }
  destruct pp as [port d2]. cbn [snd] in Hpp. clear Hhp.
  set (d3 := match getenv "MS_DEBUGGER_PARTIAL_MEM" with
             | Some str => if String.eqb str "1" then set_partial_memory_ true d2 else d2
             | None => d2
             end).
  assert (Hd3 : graph_ptr_ d3 = graph_ptr_ (dbg p) /\ device_id_ d3 = device_id_ (dbg p)).
  { subst d3. destruct (getenv "MS_DEBUGGER_PARTIAL_MEM") as [str |];
      [destruct (String.eqb str "1") |];
      first [assumption | now destruct d2]. }
  clearbody d3. exists d3. split; [apply Hd3 |]. split; [apply Hd3 |].
  destruct (EnableDebugger_overflow_info d3) as [d4 | d4 |]; [| | reflexivity].
  - eexists. split; [reflexivity |]. cbn [dbg with_dbg emit].
    destruct (debugger_enabled_ d4); split; now destruct d4.
  - eexists. split; [reflexivity |]. split; reflexivity.
Qed.

(** ** PreExecute on a data-loading graph *)

Lemma has_dataset_node_found (nodes : list CNode) (node : CNode) :
  In node nodes ->
  cnode_name node = "GetNext" \/ cnode_name node = "InitDataSetQueue" ->
  has_dataset_node nodes = true.
Proof.
  intros Hin Hname. induction nodes as [|n nodes IH]; [contradiction |].
  cbn [has_dataset_node].
  destruct (String.eqb (cnode_name n) "GetNext" || String.eqb (cnode_name n) "InitDataSetQueue")
    eqn:Hn; [reflexivity |].
  destruct Hin as [-> | Hin]; [| now apply IH].
  apply orb_false_iff in Hn as [Hn1 Hn2].
  destruct Hname as [Hname | Hname]; rewrite Hname in *; discriminate.
Qed.

(** C4.  For a graph whose execution order contains a node named "GetNext"
    or "InitDataSetQueue", [PreExecute] returns without any call to the
    controller (no metadata, no graph topology, no wait for a command) and
    without consuming a reply, whatever the state of the session and of its
    watch store; when the backend is enabled and the graph is not the bound
    one, it binds the graph and marks it as a data-loading graph, and
    otherwise it leaves the object as it was. *)
Theorem PreExecute_dataset_graph `{Host} (graph : KernelGraph) (node : CNode) (p : Process) :
  In node (execution_order graph) ->
  cnode_name node = "GetNext" \/ cnode_name node = "InitDataSetQueue" ->
  exists d',
    PreExecute graph p = Returned (mkProcess d' (inbox p) (trace p))
    /\ (DebuggerBackendEnabled (dbg p) = true ->
        graph_ptr_differs (graph_ptr_ (dbg p)) graph = true ->
        d' = set_is_dataset_graph_ true (set_graph_ptr_ (Some graph) (dbg p)))
    /\ (DebuggerBackendEnabled (dbg p) = false
        \/ graph_ptr_differs (graph_ptr_ (dbg p)) graph = false ->
        d' = dbg p).
Proof.
  intros Hin Hname. pose proof (has_dataset_node_found _ _ Hin Hname) as Hdata.
  unfold PreExecute, CheckGraphPtr.
  destruct p as [d box tr]. cbn [dbg inbox trace].
  destruct (DebuggerBackendEnabled d); [destruct (graph_ptr_differs (graph_ptr_ d) graph) |].
  - unfold CheckDatasetGraph. cbn. rewrite Hdata. cbn.
    eexists. split; [reflexivity |]. split; [reflexivity |].
    intros [? | ?]; discriminate.
  - eexists. split; [reflexivity |]. split; [discriminate | reflexivity].
  - eexists. split; [reflexivity |]. split; [discriminate | reflexivity].
Qed.

Lemma PreExecute_dataset_graph_witness :
  exists d',
    @PreExecute host_gpu (mkKernelGraph 2 1 [] [mkCNode "GetNext" "Default/GetNext-op0"])
                gpu_session
    = Returned (mkProcess d' (inbox gpu_session) (trace gpu_session))
    /\ is_dataset_graph_ d' = true.
Proof.
  destruct (@PreExecute_dataset_graph host_gpu
              (mkKernelGraph 2 1 [] [mkCNode "GetNext" "Default/GetNext-op0"])
              (mkCNode "GetNext" "Default/GetNext-op0") gpu_session)
    as (d' & Hrun & Hnew & _).
  - now left.
  - now left.
  - exists d'. split; [exact Hrun |]. rewrite Hnew; reflexivity.
Defined.

(** ** PostExecute *)




(** ** The overflow watermark *)

(** The name of a record decides its time stamp as the suffix after the last
    '.' does. *)
Lemma record_time_suffix `{Host} (pre suf : string) :
  Z.of_nat (String.length (pre +:+ "." +:+ suf)) < UINT64_MOD ->
  char_in "." suf = false ->
  record_time (pre +:+ "." +:+ suf) = stod suf.
Proof.
  intros Hlen Hsuf. unfold record_time, suffix.
  change ("." +:+ suf) with (String "." suf) in *.
  rewrite (after_last_separator "." pre suf Hlen Hsuf).
  unfold find_last_of. rewrite find_last_of_from_last by assumption.
  rewrite length_append in Hlen. cbn [String.length] in Hlen.
  destruct (Z.eqb_spec (0 + Z.of_nat (String.length pre)) npos) as [Heq | _];
    [unfold npos in Heq; lia | reflexivity].
Qed.

Lemma record_time_without_suffix `{Host} (file_name : string) :
  char_in "." file_name = false -> record_time file_name = None.
Proof.
  intros Hname. unfold record_time, suffix, find_last_of.
  now rewrite find_last_of_from_absent by assumption.
Qed.

(** The time stamps of the records that a scan with a watermark that is not
    NaN takes up: each is NaN, or greater than the watermark. *)
Lemma taken_record_times `{Host} (w : double) (entries : list dirent) :
  is_nan w = false ->
  Forall (fun t => is_nan t = true \/ double_gt t w = true)
         (omap (fun dir => record_time (d_name dir))
               (List.filter (fun dir => is_new_record w dir || is_unordered_record w dir)
                            entries)).
Proof.
  intros Hw. induction entries as [|dir entries IH]; cbn [List.filter]; [constructor |].
  destruct (is_new_record w dir || is_unordered_record w dir) eqn:Htaken; [| exact IH].
  rewrite omap_cons. unfold is_new_record, is_unordered_record in Htaken.
  destruct (record_time (d_name dir)) as [t |]; [| exact IH].
  cbn [option_list app]. constructor; [| exact IH].
  rewrite Hw, orb_false_r in Htaken.
  destruct (d_is_reg dir); [| discriminate]. cbn [andb] in Htaken.
  apply orb_true_iff in Htaken as [Hgt | Hnan]; [now right | now left].
Qed.

(** Every completed scan leaves the watermark where it was or moves it up:
    the prior watermark is never greater than the new one. *)
Lemma CheckOpOverflow_monotone `{Host} (d d' : Debugger) (op_names : list string) :
  CheckOpOverflow d = Returns (op_names, d') ->
  double_gt (last_overflow_bin_ d) (last_overflow_bin_ d') = false.
Proof.
  unfold CheckOpOverflow.
  destruct (match opendir (overflow_bin_path_ d) with
            | Some entries => readdir_loop (CheckOpOverflow_entry d) entries ([], [])
            | None => Finished ([], [])
            end) as [[bin_list names] | ?]; [| discriminate].
  intros [= _ <-]. cbn [set_last_overflow_bin_ last_overflow_bin_].
  apply raise_watermark_not_exceeded.
Qed.

(** C8, as the code has it.  A [CheckOpOverflow] scan converts the suffix
    after the last '.' of the name of every regular file with [std::stod].
    If one of them does not convert, the exception leaves the scan and the
    object is as it was.  Otherwise the scan processes exactly the regular
    files whose time stamp is strictly greater than the watermark held at
    the start of the scan, and those whose time stamp is not ordered with it
    (NaN); the operations that these records name are its result.  After the
    scan the watermark is its prior value or one of the processed time
    stamps, and neither the prior value nor a processed time stamp is
    greater than it; it is NaN only if it was before.  If the watermark was
    not NaN, it has not decreased, and every processed time stamp that is
    not NaN is strictly greater than the old watermark and at most the new
    one: the new watermark is the maximum.  With the records 3.1, 7.2 and
    2.0 and the watermark 0 the scan ends with the watermark 7.2, and a
    record 5.0 that appears afterwards is not processed.  [Reset] sets the
    watermark back to 0.  So does the rescan of [EnableDebugger] in the
    device build once the debugger or the dump is switched on, whatever the
    watermark was: in the directory of the bound graph the exception of a
    file whose path has a suffix that does not convert leaves
    [EnableDebugger], and otherwise, when no time stamp is NaN,
    [EnableDebugger] returns with the largest time stamp that it finds in
    the paths of the regular files, or with 0 if none is greater. *)
Theorem CheckOpOverflow_watermark `{Host} (d : Debugger) (entries : list dirent) :
  opendir (overflow_bin_path_ d) = Some entries ->
  let w := last_overflow_bin_ d in
  let processed :=
    List.filter (fun dir => is_new_record w dir || is_unordered_record w dir) entries in
  let times := omap (fun dir => record_time (d_name dir)) processed in
  (existsb is_unreadable entries = true -> CheckOpOverflow d = Throws d)
  /\ (existsb is_unreadable entries = false ->
      exists w',
        CheckOpOverflow d
        = Returns (omap (overflowed_op d) processed, set_last_overflow_bin_ w' d)
        /\ (w' = w \/ In w' times)
        /\ double_gt w w' = false
        /\ Forall (fun t => double_gt t w' = false) times
        /\ is_nan w' = is_nan w
        /\ (is_nan w = false ->
            double_le w w' = true
            /\ Forall (fun t => is_nan t = true
                                \/ double_gt t w = true /\ double_le t w' = true) times))
  /\ (let after := set_last_overflow_bin_ (Finite (72 # 10)) overflow_session in
      @CheckOpOverflow (host_overflow false) overflow_session = Returns (["Conv2D"], after)
      /\ @is_new_record (host_overflow true) (last_overflow_bin_ after)
                        (mkDirent true "d.5") = false
      /\ @CheckOpOverflow (host_overflow true) after = Returns ([], after))
  /\ last_overflow_bin_ (Reset d) = Finite 0
  /\ (forall (box : list EventReply) (tr : list Event) (g : KernelGraph),
      ENABLE_D = true ->
      CheckDebuggerEnabled || CheckDebuggerDumpEnabled d = true ->
      graph_ptr_ d = Some g ->
      let path := GetOpOverflowBinPath (graph_id g) (device_id_ d) in
      let found := default [] (opendir path) in
      (existsb (is_unreadable_at path) found = true ->
       exists p', EnableDebugger (mkProcess d box tr) = Thrown p'
                  /\ overflow_bin_path_ (dbg p') = path)
      /\ (existsb (is_unreadable_at path) found = false ->
          exists p',
            EnableDebugger (mkProcess d box tr) = Returned p'
            /\ overflow_bin_path_ (dbg p') = path
            /\ (Forall (fun t => is_nan t = false) (rescan_times path found) ->
                let w' := last_overflow_bin_ (dbg p') in
                (w' = Finite 0 \/ In w' (rescan_times path found))
                /\ double_le (Finite 0) w' = true
                /\ Forall (fun t => double_le t w' = true) (rescan_times path found)))).
Proof.
  intros Hdir w processed times.
  split; [| split; [| split; [| split]]].
  - intros Hbad. unfold CheckOpOverflow. rewrite Hdir.
    destruct (CheckOpOverflow_scan_throws d entries ([], []) Hbad) as [acc' ->].
    reflexivity.
  - intros Hread. exists (raise_watermark w times).
    split.
    { unfold CheckOpOverflow. rewrite Hdir, (CheckOpOverflow_scan d entries [] [] Hread).
      reflexivity. }
    split; [apply raise_watermark_attained |].
    split; [apply raise_watermark_not_exceeded |].
    split; [apply raise_watermark_not_exceeded |].
    split; [apply raise_watermark_nan |].
    intros Hw. split; [now apply raise_watermark_ge |].
    pose proof (taken_record_times w entries Hw) as Habove.
    pose proof (raise_watermark_upper times w Hw) as Hupper.
    fold processed in Habove. fold times in Habove.
    apply List.Forall_forall. intros t Hin.
    rewrite List.Forall_forall in Habove, Hupper.
    destruct (Habove t Hin) as [Hnan | Hgt]; [now left |].
    destruct (Hupper t Hin) as [Hnan | Hle]; [now left | right; now split].
  - vm_compute. repeat split.
  - reflexivity.
  - intros box tr g Hbuild Hon Hg path found.
    destruct (EnableDebugger_rescans (mkProcess d box tr) Hbuild Hon)
      as (d3 & Hg3 & Hid3 & Hend).
    cbn [dbg] in Hg3, Hid3. rewrite Hg in Hg3.
    pose proof (EnableDebugger_overflow_info_rescan d3 g Hg3) as [Hthrows Hreturns].
    rewrite Hid3 in Hthrows, Hreturns. fold path in Hthrows, Hreturns.
    fold found in Hthrows, Hreturns.
    split.
    + intros Hbad. destruct (Hthrows Hbad) as [w' Hinfo]. rewrite Hinfo in Hend.
      destruct Hend as (p' & Hrun & _ & Hpath). exists p'. split; [exact Hrun |].
      rewrite Hpath. reflexivity.
    + intros Hread. destruct (Hreturns Hread) as (w' & Hinfo & Hmax).
      rewrite Hinfo in Hend. destruct Hend as (p' & Hrun & Hmark & Hpath).
      exists p'. split; [exact Hrun |]. split; [rewrite Hpath; reflexivity |].
      intros Htimes. cbn zeta. rewrite Hmark. exact (Hmax Htimes).
Qed.

Lemma CheckOpOverflow_watermark_witness :
  @CheckOpOverflow (host_overflow false) overflow_session
  = Returns (["Conv2D"], set_last_overflow_bin_ (Finite (72 # 10)) overflow_session)
  /\ @CheckOpOverflow (host_records [mkDirent true "b.72e-1"; mkDirent true "x.bin"])
                      overflow_session
     = Throws overflow_session
  /\ (exists p',
        @EnableDebugger (host_overflow false)
          (mkProcess (set_graph_ptr_ (Some (mkKernelGraph 2 2 [] [mkCNode "MatMul" "fc"]))
                        (set_last_overflow_bin_ (Finite (72 # 10)) overflow_session))
                     [] [])
        = Returned p'
        /\ last_overflow_bin_ (dbg p') = Finite 5).
Proof.
  split; [| split].
  - destruct (proj1 (proj2 (@CheckOpOverflow_watermark (host_overflow false)
                              overflow_session sample_records eq_refl)) eq_refl)
      as (w' & Hrun & Hin & _ & Hupper & _).
    rewrite Hrun. apply f_equal. apply f_equal2; [reflexivity |].
    apply (f_equal (fun v => set_last_overflow_bin_ v overflow_session)).
    rewrite List.Forall_forall in Hupper.
    specialize (Hupper (Finite (72 # 10)) ltac:(vm_compute; auto)).
    vm_compute in Hin.
    destruct Hin as [-> | [<- | [<- | [<- | []]]]]; try reflexivity;
      vm_compute in Hupper; discriminate Hupper.
  - exact (proj1 (@CheckOpOverflow_watermark
                    (host_records [mkDirent true "b.72e-1"; mkDirent true "x.bin"])
                    overflow_session
                    [mkDirent true "b.72e-1"; mkDirent true "x.bin"] eq_refl) eq_refl).
  - pose proof (@CheckOpOverflow_watermark (host_overflow false)
                  (set_graph_ptr_ (Some (mkKernelGraph 2 2 [] [mkCNode "MatMul" "fc"]))
                     (set_last_overflow_bin_ (Finite (72 # 10)) overflow_session))
                  sample_records eq_refl) as (_ & _ & _ & _ & Hrescan).
    destruct (Hrescan [] [] (mkKernelGraph 2 2 [] [mkCNode "MatMul" "fc"])
                      eq_refl eq_refl eq_refl) as [_ Hreturns].
    destruct (Hreturns eq_refl) as (p' & Hrun & _ & Hmax).
    exists p'. split; [exact Hrun |].
    destruct (Hmax ltac:(vm_compute; repeat constructor)) as (Hin & _ & Hupper).
    remember (last_overflow_bin_ (dbg p')) as w' eqn:Hw'.
    rewrite List.Forall_forall in Hupper.
    specialize (Hupper (Finite 5) ltac:(vm_compute; auto)).
    vm_compute in Hin.
    destruct Hin as [Hw | [Hw | []]]; [| symmetry; exact Hw].
    rewrite Hw in Hupper. vm_compute in Hupper. discriminate Hupper.
Defined.

(** The watermark does go down: [Reset] sets it to 0, and when a graph with
    another overflow directory is bound, the rescan of [EnableDebugger] starts
    from 0 and ends at the largest time stamp found there (here 5.0, after
    7.2). *)
Lemma watermark_is_set_back :
  let after := set_last_overflow_bin_ (Finite (72 # 10)) overflow_session in
  @CheckOpOverflow (host_overflow false) overflow_session = Returns (["Conv2D"], after)
  /\ last_overflow_bin_ (Reset after) = Finite 0
  /\ exists p',
       @PreExecute (host_overflow false)
                   (mkKernelGraph 2 2 [] [mkCNode "MatMul" "fc"])
                   (mkProcess after [mkEventReply true (RunCmd "step" "")] [])
       = Returned p'
       /\ last_overflow_bin_ (dbg p') = Finite 5
       /\ double_gt (last_overflow_bin_ after) (last_overflow_bin_ (dbg p')) = true.
Proof.
  split; [reflexivity |]. split; [reflexivity |].
  eexists. split; [vm_compute; reflexivity |]. split; reflexivity.
Qed.

(** A record whose suffix [std::stod] does not convert ends the scan, and
    with it [PostExecute], by an exception; a record with the time stamp NaN
    is processed by every scan and leaves the watermark where it is. *)
Lemma unreadable_and_unordered_records :
  @CheckOpOverflow (host_records [mkDirent true "b.72e-1"; mkDirent true "x.bin"])
                   overflow_session
  = Throws overflow_session
  /\ (let after := set_last_overflow_bin_ (Finite (72 # 10)) overflow_session in
      let records := [mkDirent true "b.72e-1"; mkDirent true "e.nan"] in
      @CheckOpOverflow (host_records records) overflow_session = Returns (["Conv2D"], after)
      /\ @CheckOpOverflow (host_records records) after = Returns ([], after)
      /\ List.filter (fun dir => @is_unordered_record (host_records records)
                                   (last_overflow_bin_ after) dir) records
         = [mkDirent true "e.nan"]).
Proof. vm_compute. repeat split. Qed.
